(** * cache-reverse-proxy: the cache, the hit/miss handler, the capture hook
      and the cleanup worker of [main.go], embedded and verified.

    The development follows [main.go]:
    - [Header] and its operations model [net/http.Header];
    - [cacheData], [cache] are the structs of the same names;
    - the handler registered in [run], [handleMissedCache],
      [writeToResponseCacheHit], [saveCacheData], [isCacheStale] and
      [cleanup] are functions in a small state monad over [World], the
      process state they share (the cache, the proxy's [ModifyResponse]
      field and the log);
    - the library pieces the code calls ([httputil.ReverseProxy.ServeHTTP],
      [io.ReadAll], the clock) are modelled by their documented contract. *)

From Stdlib Require Import ZArith Lia Ascii String.
From stdpp Require Import base option list strings gmap fin_maps.

Local Open Scope Z_scope.
Local Open Scope string_scope.
Local Open Scope list_scope.

(** ** Header keys: [textproto.CanonicalMIMEHeaderKey] *)

Module MIME.

Definition code (c : ascii) : N := N_of_ascii c.

Definition isLower (c : ascii) : bool := ((97 <=? code c) && (code c <=? 122))%N.
Definition isUpper (c : ascii) : bool := ((65 <=? code c) && (code c <=? 90))%N.
Definition isDigit (c : ascii) : bool := ((48 <=? code c) && (code c <=? 57))%N.

(** The token characters of RFC 7230. *)
Definition validHeaderFieldByte (c : ascii) : bool :=
  isLower c || isUpper c || isDigit c
  || existsb (Ascii.eqb c)
       (list_ascii_of_string "!#$%&'*+-.^_`|~").

Definition toLower : N := 32.

Definition dash : ascii := Ascii.ascii_of_N 45.

(** One step of the second loop of [canonicalMIMEHeaderKey]: a lower case
    letter is raised where an upper case one is due, and the other way
    round. *)
Definition canonByte (upper : bool) (c : ascii) : ascii :=
  if upper && isLower c then ascii_of_N (code c - toLower)
  else if negb upper && isUpper c then ascii_of_N (code c + toLower)
  else c.

(** The second loop of [canonicalMIMEHeaderKey]: first letter upper case,
    and upper case after each dash, the rest lower case. *)
Fixpoint canonLoop (upper : bool) (a : string) : string :=
  match a with
  | EmptyString => EmptyString
  | String c a' =>
      let c' := canonByte upper c in
      String c' (canonLoop (Ascii.eqb c' dash) a')
  end.

Fixpoint allValid (a : string) : bool :=
  match a with
  | EmptyString => true
  | String c a' => validHeaderFieldByte c && allValid a'
  end.

(** A key with a byte that is not a token character is returned
    unchanged; any other key is canonicalised. *)
Definition CanonicalMIMEHeaderKey (s : string) : string :=
  if allValid s then canonLoop true s else s.

End MIME.

(** ** [net/http.Header] *)

Abbreviation Header := (gmap string (list string)).

Module Hdr.

Definition canon := MIME.CanonicalMIMEHeaderKey.

(** [h.Add(key, value)]: appends to the values under the canonical key. *)
Definition Add (key value : string) (h : Header) : Header :=
  <[canon key := default [] (h !! canon key) ++ [value]]> h.

(** [h.Set(key, value)]: replaces the values under the canonical key. *)
Definition Set_ (key value : string) (h : Header) : Header :=
  <[canon key := [value]]> h.

(** [h.Del(key)] *)
Definition Del (key : string) (h : Header) : Header :=
  delete (canon key) h.

(** [h.Clone()]: a copy that shares no value slice with [h]. *)
Definition Clone (h : Header) : Header :=
  (λ vv : list string, vv ++ []) <$> h.

(** A header set as the transport parses it: every key is canonical
    and carries at least one value. *)
Definition parsed (h : Header) : Prop :=
  ∀ k vv, h !! k = Some vv → canon k = k ∧ vv ≠ [].

End Hdr.

(** ** Errors, body streams, requests and responses *)

Inductive error := Err (msg : string).

Definition Error (e : error) : string := let 'Err msg := e in msg.

(** An [io.ReadCloser]: the bytes the stream still yields, the error (if
    any) that a read hits once they are exhausted, in place of EOF, and
    the error (if any) that [Close] returns. *)
Record Body := {
  pending : list Byte.byte;
  readErr : option error;
  closeErr : option error
}.

Module io.

(** [io.ReadAll(r)]: the bytes read, the error, and the drained stream. *)
Definition ReadAll (r : Body) : list Byte.byte * option error * Body :=
  (pending r, readErr r,
   {| pending := []; readErr := readErr r; closeErr := closeErr r |}).

(** [r.Close()] *)
Definition Close (r : Body) : option error := closeErr r.

(** [io.NopCloser(bytes.NewReader(b))] *)
Definition NopCloser (b : list Byte.byte) : Body :=
  {| pending := b; readErr := None; closeErr := None |}.

End io.

Record URL := {
  Scheme : string;
  Host : string;
  Path : string;
  RawQuery : string
}.

(** [http.Request], the fields the program and its director touch. *)
Record Request := {
  Method : string;
  RequestURI : string;
  ReqURL : URL;
  ReqHost : string;
  ReqHeader : Header
}.

(** [http.Response] *)
Record Response := {
  StatusCode : Z;
  ResHeader : Header;
  ResBody : Body;
  ResRequest : Request
}.

(** [http.ResponseWriter]: the header map, the status passed to
    [WriteHeader], the bytes passed to [Write], and the error [Write]
    returns when the client connection is broken. *)
Record ResponseWriter := {
  wHeader : Header;
  wStatus : option Z;
  wBody : list Byte.byte;
  wErr : option error
}.

Definition newResponseWriter (e : option error) : ResponseWriter :=
  {| wHeader := ∅; wStatus := None; wBody := []; wErr := e |}.

Definition MethodGet : string := "GET".
Definition StatusBadGateway : Z := 502.

Definition XCacheMiss : string := "MISS".
Definition XCacheHit : string := "HIT".

(** ** The cache and the process state *)

Record cacheData := {
  header : Header;
  body : list Byte.byte;
  age : Z;
  status : Z
}.

(** [cache]; the [mu] field shows as lock events in the log of [World]. *)
Record cache := {
  data : gmap string cacheData;
  ttl : Z
}.

Definition newCache (ttl : Z) : cache := {| data := ∅; ttl := ttl |}.

Definition withData (m : gmap string cacheData) (c : cache) : cache :=
  {| data := m; ttl := ttl c |}.

(** The one closure the program ever assigns to [rp.ModifyResponse], the
    function literal of [handleMissedCache]; it captures [c]. *)
Inductive hook := missedCacheHook.

Record ReverseProxy := {
  target : URL;
  ModifyResponse : option hook
}.

Inductive event :=
| EvRLock
| EvRUnlock
| EvLock
| EvUnlock
| EvLog (msg : string)
| EvRoundTrip (outreq : Request)
| EvAbort.

Record World := {
  c : cache;
  rp : ReverseProxy;
  events : list event
}.

(** What the surroundings hand to the program while it serves one
    request: the upstream exchange and the two clock readings. *)
Record Env := {
  transport : Request → Response + error;
  nowLookup : Z;
  nowCapture : Z
}.

(** ** The state monad *)

Definition M (A : Type) : Type := World → A * World.

#[export] Instance M_ret : MRet M := λ A a w, (a, w).
#[export] Instance M_bind : MBind M := λ A B f m w, let '(a, w') := m w in f a w'.

Definition get : M World := λ w, (w, w).
Definition setCache (c' : cache) : M unit :=
  λ w, (tt, {| c := c'; rp := rp w; events := events w |}).
Definition setProxy (rp' : ReverseProxy) : M unit :=
  λ w, (tt, {| c := c w; rp := rp'; events := events w |}).
Definition emit (e : event) : M unit :=
  λ w, (tt, {| c := c w; rp := rp w; events := events w ++ [e] |}).

Definition logPrintf (msg : string) : M unit := emit (EvLog msg).

(** ** [http.ResponseWriter] operations *)

(** [w.WriteHeader(code)]; a second call is ignored by the server. *)
Definition WriteHeader (code : Z) (w : ResponseWriter) : ResponseWriter :=
  {| wHeader := wHeader w;
     wStatus := Some (default code (wStatus w));
     wBody := wBody w;
     wErr := wErr w |}.

(** [w.Write(b)]: sends status 200 first when no status was written. *)
Definition Write (b : list Byte.byte) (w : ResponseWriter)
  : ResponseWriter * option error :=
  ({| wHeader := wHeader w;
      wStatus := Some (default 200 (wStatus w));
      wBody := wBody w ++ b;
      wErr := wErr w |}, wErr w).

Definition withHeader (h : Header) (w : ResponseWriter) : ResponseWriter :=
  {| wHeader := h; wStatus := wStatus w; wBody := wBody w; wErr := wErr w |}.

(** [for k, vv := range src { for _, v := range vv { dst.Add(k, v) } }]
    over the entries of [src] in the order [entries] lists them. *)
Definition addValues (k : string) (vv : list string) (dst : Header) : Header :=
  foldl (λ h v, Hdr.Add k v h) dst vv.

Definition addAll (entries : list (string * list string)) (dst : Header) : Header :=
  foldl (λ h kvv, addValues kvv.1 kvv.2 h) dst entries.

(** ** The clock *)

(** Instants ([time.Time]) and durations ([time.Duration]) are integers,
    in nanoseconds. *)
Module time.

(** [t.Add(d)] *)
Definition Add (t d : Z) : Z := t + d.

(** [t.After(u)] *)
Definition After (t u : Z) : bool := Z.ltb u t.

End time.

(** [isCacheStale(a, ttl)], with the reading of [time.Now()] as [now]. *)
Definition isCacheStale (now : Z) (a : Z) (ttl : Z) : bool :=
  time.After now (time.Add a ttl).

(** ** The capture *)

Definition withBody (b : Body) (res : Response) : Response :=
  {| StatusCode := StatusCode res; ResHeader := ResHeader res;
     ResBody := b; ResRequest := ResRequest res |}.

Definition withResHeader (h : Header) (res : Response) : Response :=
  {| StatusCode := StatusCode res; ResHeader := h;
     ResBody := ResBody res; ResRequest := ResRequest res |}.

Definition withRequest (r : Request) (res : Response) : Response :=
  {| StatusCode := StatusCode res; ResHeader := ResHeader res;
     ResBody := ResBody res; ResRequest := r |}.

(** [c.data[key] = d], the spec's [Store(key, entry)]. *)
Definition Store (key : string) (d : cacheData) : M unit :=
  w ← get;
  setCache (withData (<[key := d]> (data (c w))) (c w)).

(** [saveCacheData(res, c, xCacheValue)], with the reading of [time.Now()]
    as [now]; [res] is a pointer in the source, so the updated response is
    returned next to the error. *)
Definition saveCacheData (now : Z) (res : Response) (xCacheValue : string)
  : M (Response * option error) :=
  let key := RequestURI (ResRequest res) in
  let '(b, err, drained) := io.ReadAll (ResBody res) in
  let res := withBody drained res in
  match err with
  | Some e => mret (res, Some e)
  | None =>
      match io.Close (ResBody res) with
      | Some e => mret (res, Some e)
      | None =>
          let res := withBody (io.NopCloser b) res in
          emit EvLock;;
          Store key {| header := Hdr.Clone (ResHeader res);
                       body := b;
                       age := now;
                       status := StatusCode res |};;
          emit EvUnlock;;
          let res := withResHeader (Hdr.Add "X-Cache" xCacheValue (ResHeader res)) res in
          mret (res, None)
      end
  end.

(** The function literal of [handleMissedCache]. *)
Definition runHook (h : hook) (now : Z) (res : Response)
  : M (Response * option error) :=
  match h with
  | missedCacheHook =>
      if negb (String.eqb (Method (ResRequest res)) MethodGet) then
        mret (res, None)
      else
        '(res, err) ← saveCacheData now res XCacheMiss;
        (match err with
         | Some e => logPrintf ("error while saving stale cache " +:+ Error e)
         | None => mret tt
         end);;
        mret (res, None)
  end.

(** [handleMissedCache(rp, c)] *)
Definition handleMissedCache : M unit :=
  w ← get;
  setProxy {| target := target (rp w); ModifyResponse := Some missedCacheHook |}.

(** [writeToResponseCacheHit(w, d)]. Go leaves the order of a range over
    a map open; the entries are taken here in the order of [map_to_list],
    and [addAll_parsed] below shows that for header sets as the transport
    parses them every order gives the same result. *)
Definition writeToResponseCacheHit (w : ResponseWriter) (d : cacheData)
  : M ResponseWriter :=
  let w := withHeader (addAll (map_to_list (header d)) (wHeader w)) w in
  let w := withHeader (Hdr.Set_ "X-Cache" XCacheHit (wHeader w)) w in
  let w := WriteHeader (status d) w in
  let '(w, err) := Write (body d) w in
  (match err with
   | Some e => logPrintf ("can't write to body " +:+ Error e)
   | None => mret tt
   end);;
  mret w.

(** ** The forwarder *)

(** The director [d] of [newReverseProxy], applied to the clone of the
    inbound request that the proxy sends upstream. *)
Definition director (target : URL) (req : Request) : Request :=
  {| Method := Method req;
     RequestURI := RequestURI req;
     ReqURL := {| Scheme := Scheme target;
                  Host := Host target;
                  Path := Path (ReqURL req);
                  RawQuery := RawQuery (ReqURL req) |};
     ReqHost := Host target;
     ReqHeader := Hdr.Del "X-Forwarded-For" (ReqHeader req) |}.

Definition newReverseProxy (target : URL) : ReverseProxy :=
  {| target := target; ModifyResponse := None |}.

(** [rp.ServeHTTP(w, r)], by the contract of [httputil.ReverseProxy]: the
    director rewrites a clone of [r]; the transport exchanges it for a
    response whose [Request] is that clone ([transport env] gives the
    response as the proxy hands it on, hop-by-hop headers removed);
    [ModifyResponse], when set, is called on the response; then headers,
    status and body are relayed to [w], the body as far as it can still be
    read. When the read of the body fails during that copy, the proxy logs
    the error and aborts the response ([panic(http.ErrAbortHandler)],
    [EvAbort]): the client sees the connection end. A transport failure,
    or an error from [ModifyResponse], is answered with 502.

    [EvRoundTrip] records the request as the director leaves it. Before
    it sends the request the library completes its headers
    ([X-Forwarded-For] with the client's address, [User-Agent], the
    hop-by-hop headers); that completion is not modelled, and nothing below
    speaks of the headers of the request as sent. *)
Definition ServeHTTP (env : Env) (w : ResponseWriter) (r : Request)
  : M ResponseWriter :=
  wd ← get;
  let outreq := director (target (rp wd)) r in
  emit (EvRoundTrip outreq);;
  match transport env outreq with
  | inr e =>
      logPrintf ("http: proxy error: " +:+ Error e);;
      mret (WriteHeader StatusBadGateway w)
  | inl res =>
      let res := withRequest outreq res in
      '(res, err) ← match ModifyResponse (rp wd) with
                     | Some h => runHook h (nowCapture env) res
                     | None => mret (res, None)
                     end;
      match err with
      | Some e =>
          logPrintf ("http: proxy error: " +:+ Error e);;
          mret (WriteHeader StatusBadGateway w)
      | None =>
          let w := withHeader (addAll (map_to_list (ResHeader res)) (wHeader w)) w in
          let w := WriteHeader (StatusCode res) w in
          let '(b, rerr, _) := io.ReadAll (ResBody res) in
          let w := (Write b w).1 in
          match rerr with
          | Some e =>
              logPrintf ("httputil: ReverseProxy read error during body copy: "
                         +:+ Error e);;
              emit EvAbort;;
              mret w
          | None => mret w
          end
      end
  end.

(** ** The request handler of [run] *)

Definition zeroCacheData : cacheData :=
  {| header := ∅; body := []; age := 0; status := 0 |}.

(** [d, ok := c.data[key]] under the read lock, the spec's [Lookup(key)]. *)
Definition Lookup (key : string) : M (cacheData * bool) :=
  emit EvRLock;;
  w ← get;
  let o := data (c w) !! key in
  emit EvRUnlock;;
  mret (default zeroCacheData o, bool_decide (is_Some o)).

(** The function registered with [http.HandleFunc("/", ...)]. The first
    component of the inner result is [true] where the source returns
    before reaching [rp.ServeHTTP]. *)
Definition handler (env : Env) (w : ResponseWriter) (r : Request)
  : M ResponseWriter :=
  '(returned, w) ←
    (if String.eqb (Method r) MethodGet then
       '(d, ok) ← Lookup (RequestURI r);
       wd ← get;
       if ok && negb (isCacheStale (nowLookup env) (age d) (ttl (c wd))) then
         w ← writeToResponseCacheHit w d;
         mret (true, w)
       else
         handleMissedCache;;
         mret (false, w)
     else mret (false, w));
  if returned : bool then mret w else ServeHTTP env w r.

(** ** The cleanup worker *)

(** The body of [for key, d := range c.data] in [cleanup], over the
    entries in the order the range visits them; [nowAt key] is the
    reading of [time.Now()] when the entry of [key] is examined. *)
Fixpoint cleanupRange (nowAt : string → Z) (ttl : Z)
    (entries : list (string * cacheData)) : M unit :=
  match entries with
  | [] => mret tt
  | (key, d) :: rest =>
      (if isCacheStale (nowAt key) (age d) ttl then
         w ← get;
         setCache (withData (delete key (data (c w))) (c w));;
         logPrintf ("deleted cache with key: " +:+ key)
       else mret tt);;
      cleanupRange nowAt ttl rest
  end.

(** [c.cleanup(ttl)] *)
Definition cleanup (nowAt : string → Z) (ttl : Z) : M unit :=
  emit EvLock;;
  w ← get;
  cleanupRange nowAt ttl (map_to_list (data (c w)));;
  logPrintf "cache cleanup completed";;
  emit EvUnlock.

(** One firing of the ticker in [startCleanupWorker]; the worker's [ttl]
    and the cache's come from the same [getTTL]. *)
Definition tick (nowAt : string → Z) : M unit :=
  w ← get;
  cleanup nowAt (ttl (c w)).

(** ** The running server *)

(** The state [run] sets up before it starts to serve. *)
Definition initial (ttl : Z) : World :=
  {| c := newCache ttl;
     rp := newReverseProxy {| Scheme := "https"; Host := "dummyjson.com";
                              Path := ""; RawQuery := "" |};
     events := [] |}.

(** What happens to the server: a request is served, or the ticker fires. *)
Inductive op :=
| Serve (env : Env) (wErr : option error) (r : Request)
| Tick (nowAt : string → Z).

Definition step (o : op) (w : World) : World :=
  match o with
  | Serve env e r => (handler env (newResponseWriter e) r w).2
  | Tick nowAt => (tick nowAt w).2
  end.

Definition run (ops : list op) (w : World) : World := foldl (λ w o, step o w) w ops.

(** ** Views of the state and of the outcomes, used in the statements *)

(** The entry a successful capture of [res] at time [now] builds. *)
Definition captured (now : Z) (res : Response) : cacheData :=
  {| header := ResHeader res;
     body := pending (ResBody res);
     age := now;
     status := StatusCode res |}.

(** The response a successful capture leaves for the forwarder to relay. *)
Definition tagged (xCacheValue : string) (res : Response) : Response :=
  {| StatusCode := StatusCode res;
     ResHeader := Hdr.Add "X-Cache" xCacheValue (ResHeader res);
     ResBody := io.NopCloser (pending (ResBody res));
     ResRequest := ResRequest res |}.

Definition stored (key : string) (d : cacheData) (evs : list event) (w : World) : World :=
  {| c := withData (<[key := d]> (data (c w))) (c w);
     rp := rp w;
     events := events w ++ evs |}.

(** The body can be read to its end and closed. *)
Definition readable (b : Body) : Prop := readErr b = None ∧ closeErr b = None.

(** The error with which a capture of the body is abandoned. *)
Definition captureErr (b : Body) : option error :=
  match readErr b with
  | Some e => Some e
  | None => closeErr b
  end.

Definition addEvents (evs : list event) (w : World) : World :=
  {| c := c w; rp := rp w; events := events w ++ evs |}.

(** The entry the handler serves from: present and not stale. *)
Definition freshEntry (now : Z) (key : string) (w : World) : option cacheData :=
  match data (c w) !! key with
  | Some d => if isCacheStale now (age d) (ttl (c w)) then None else Some d
  | None => None
  end.

(** The state in which the handler hands a missed GET to the forwarder. *)
Definition missed (w : World) : World :=
  {| c := c w;
     rp := {| target := target (rp w); ModifyResponse := Some missedCacheHook |};
     events := events w ++ [EvRLock; EvRUnlock] |}.

(** What the forwarder writes to the client for the response [res]. *)
Definition relay (res : Response) (w : ResponseWriter) : ResponseWriter :=
  (Write (pending (ResBody res))
     (WriteHeader (StatusCode res)
        (withHeader (addAll (map_to_list (ResHeader res)) (wHeader w)) w))).1.

(** What the forwarder's copy of the body adds to the log: nothing when
    the body reads to its end, the error and the abort otherwise. *)
Definition copyAbort (b : Body) : list event :=
  match readErr b with
  | Some e =>
      [EvLog ("httputil: ReverseProxy read error during body copy: " +:+ Error e);
       EvAbort]
  | None => []
  end.

Definition outreq (wd : World) (r : Request) : Request :=
  director (target (rp wd)) r.

(** The response the transport returns for [r], as the hook receives it. *)
Definition upstream (env : Env) (wd : World) (r : Request) : Response + error :=
  match transport env (outreq wd r) with
  | inl res => inl (withRequest (outreq wd r) res)
  | inr e => inr e
  end.

(** The entry [kd] is found stale when the cleanup examines it. *)
Definition staleAt (nowAt : string → Z) (ttl0 : Z) (kd : string * cacheData) : bool :=
  isCacheStale (nowAt kd.1) (age kd.2) ttl0.

(** The mapping after the range has visited [entries]. *)
Definition swept (nowAt : string → Z) (ttl0 : Z) (entries : list (string * cacheData))
    (m : gmap string cacheData) : gmap string cacheData :=
  foldl (λ m kd, if staleAt nowAt ttl0 kd then delete kd.1 m else m) m entries.

(** The removals the range reports on its way. *)
Definition reports (nowAt : string → Z) (ttl0 : Z)
    (entries : list (string * cacheData)) : list event :=
  (λ kd, EvLog ("deleted cache with key: " +:+ kd.1))
    <$> List.filter (staleAt nowAt ttl0) entries.

(** The entry the handler treats as fresh at [now]. *)
Definition fresh (now : Z) (d : cacheData) (ttl : Z) : bool :=
  negb (isCacheStale now (age d) ttl).

(** What a cache hit leaves in the response writer. *)
Definition hitWriter (w : ResponseWriter) (d : cacheData) : ResponseWriter :=
  {| wHeader := Hdr.Set_ "X-Cache" XCacheHit (addAll (map_to_list (header d)) (wHeader w));
     wStatus := Some (default (status d) (wStatus w));
     wBody := wBody w ++ body d;
     wErr := wErr w |}.

(** The log line of a failed write to the client. *)
Definition writeLog (e : option error) : list event :=
  match e with
  | Some e => [EvLog ("can't write to body " +:+ Error e)]
  | None => []
  end.

Definition isRoundTrip (e : event) : bool :=
  match e with EvRoundTrip _ => true | _ => false end.

(** The event takes or releases the cache's lock. *)
Definition isCacheAccess (e : event) : bool :=
  match e with
  | EvRLock | EvRUnlock | EvLock | EvUnlock => true
  | _ => false
  end.

(** How often the forwarder went upstream. *)
Definition roundTrips (evs : list event) : nat :=
  length (List.filter isRoundTrip evs).

(** Every cached header set is one the transport parsed. *)
Definition parsedCache (w : World) : Prop :=
  ∀ k d, data (c w) !! k = Some d → Hdr.parsed (header d).

(** The transport of the operation hands out parsed header sets only. *)
Definition parsedOp (o : op) : Prop :=
  match o with
  | Serve env _ _ => ∀ req res, transport env req = inl res → Hdr.parsed (ResHeader res)
  | Tick _ => True
  end.

Definition isLock (e : event) : bool :=
  match e with EvLock => true | _ => false end.

(** How often the exclusive lock was taken. *)
Definition lockAcquisitions (evs : list event) : nat :=
  length (List.filter isLock evs).

(** The operation observes the clock no later than [deadline] where the
    entry of [key] is concerned: a GET for [key] is looked up, and a
    cleanup examines [key], at or before [deadline]. *)
Definition quiet (deadline : Z) (key : string) (o : op) : Prop :=
  match o with
  | Serve env _ r =>
      Method r = MethodGet → RequestURI r = key → nowLookup env <= deadline
  | Tick nowAt => nowAt key <= deadline
  end.

(** ** Sample inputs *)

Definition bytes (s : string) : list Byte.byte := list_byte_of_string s.

Definition sampleRequest (method uri : string) : Request :=
  {| Method := method;
     RequestURI := uri;
     ReqURL := {| Scheme := ""; Host := ""; Path := uri; RawQuery := "" |};
     ReqHost := "localhost:8080";
     ReqHeader := {["Accept" := ["*/*"]]} |}.

Definition sampleBody (b : string) (rerr cerr : option error) : Body :=
  {| pending := bytes b; readErr := rerr; closeErr := cerr |}.

Definition sampleResponse (h : Header) (b : Body) : Response :=
  {| StatusCode := 200; ResHeader := h; ResBody := b;
     ResRequest := sampleRequest "" "" |}.

Definition sampleHeader : Header :=
  {["Content-Type" := ["application/json"]; "Set-Cookie" := ["a=1"; "b=2"]]}.

(** An upstream that answers every request with [res], observed at the
    clock readings [t] (lookup) and [t'] (capture). *)
Definition sampleEnv (res : Response) (t t' : Z) : Env :=
  {| transport := λ _, inl res; nowLookup := t; nowCapture := t' |}.

Definition hour : Z := 3600000000000.

Definition sampleEntry (b : string) (t : Z) : cacheData :=
  {| header := sampleHeader; body := bytes b; age := t; status := 200 |}.

(** What happens between the two requests of the sample run: a POST to
    the same resource, a GET of another resource, a cleanup pass after
    half an hour, and a GET of the same resource after ten units. *)
Definition sampleOps : list op :=
  [ Serve (sampleEnv (sampleResponse ∅ (sampleBody "ok" None None)) 7 7) None
      (sampleRequest "POST" "/products/1");
    Serve (sampleEnv (sampleResponse sampleHeader (sampleBody "[]" None None)) 8 9) None
      (sampleRequest "GET" "/products/2");
    Tick (λ _, 1800000000000);
    Serve (sampleEnv (sampleResponse ∅ (sampleBody "no" None None)) 10 10) None
      (sampleRequest "GET" "/products/1") ].

(** The scenario of the specification, with a TTL of one hour: [GET /x]
    at 0, again after 30 minutes, and again after 61 minutes; the upstream
    answers with a different body each time. *)
Definition minute : Z := 60000000000.

Definition scenarioRequest : Request := sampleRequest "GET" "/x".

Definition scenarioEnv (b : string) (t : Z) : Env :=
  sampleEnv (sampleResponse sampleHeader (sampleBody b None None)) t t.

Definition scenarioA : ResponseWriter * World :=
  handler (scenarioEnv "first" 0) (newResponseWriter None) scenarioRequest (initial hour).

Definition scenarioB : ResponseWriter * World :=
  handler (scenarioEnv "second" (30 * minute)) (newResponseWriter None)
    scenarioRequest scenarioA.2.

Definition scenarioC : ResponseWriter * World :=
  handler (scenarioEnv "third" (61 * minute)) (newResponseWriter None)
    scenarioRequest scenarioB.2.

(** The same, with the second request exactly one hour after the first. *)
Definition scenarioBoundary : ResponseWriter * World :=
  handler (scenarioEnv "second" (60 * minute)) (newResponseWriter None)
    scenarioRequest scenarioA.2.

(** ** Further views *)

(** The entry the handler serves for [r], if it serves one: [r] is a GET
    and the cache holds an entry for its key that is not stale. *)
Definition cacheHit (env : Env) (r : Request) (w : World) : option cacheData :=
  if String.eqb (Method r) MethodGet
  then freshEntry (nowLookup env) (RequestURI r) w
  else None.

(** A sample entry that has gone stale by the time of the sample lookup. *)
Definition staleWorld : World :=
  (Store "/products/1" (sampleEntry "old" 0) (initial hour)).2.

(** The request is a GET that the cache cannot answer: no entry for its
    key, or a stale one. *)
Definition missedGET (env : Env) (r : Request) (w : World) : bool :=
  String.eqb (Method r) MethodGet &&
  match freshEntry (nowLookup env) (RequestURI r) w with
  | None => true
  | Some _ => false
  end.

(** The entry [d] under [key] is what the operation [o] captured: [o]
    serves a GET for [key], the upstream response could be read to its end
    and closed, and [d] is that response, whole, stamped with the clock
    reading of the capture. *)
Definition capturedBy (tgt : URL) (o : op) (key : string) (d : cacheData) : Prop :=
  match o with
  | Serve env _ r =>
      Method r = MethodGet ∧ RequestURI r = key ∧
      ∃ res, transport env (director tgt r) = inl res ∧
             readable (ResBody res) ∧
             d = captured (nowCapture env) res
  | Tick _ => False
  end.

(** The lock [c.mu] as the events show it. *)
Inductive lockState := Free | ReadLocked | WriteLocked.

(** What an event does to the lock; [None] where the event cannot occur
    in that state: a lock taken twice, an unlock without a lock, or a round
    trip upstream, or the abort of a response, while the lock is held. Log
    lines may occur in any state. *)
Definition lockStep (s : lockState) (e : event) : option lockState :=
  match s, e with
  | Free, EvRLock => Some ReadLocked
  | ReadLocked, EvRUnlock => Some Free
  | Free, EvLock => Some WriteLocked
  | WriteLocked, EvUnlock => Some Free
  | _, EvLog _ => Some s
  | Free, EvRoundTrip _ => Some Free
  | Free, EvAbort => Some Free
  | _, _ => None
  end.

Fixpoint lockRun (s : lockState) (evs : list event) : option lockState :=
  match evs with
  | [] => Some s
  | e :: evs =>
      match lockStep s e with
      | Some s' => lockRun s' evs
      | None => None
      end
  end.

Definition dummyjson : URL :=
  {| Scheme := "https"; Host := "dummyjson.com"; Path := ""; RawQuery := "" |}.

(** Two sample entries, the first an hour older than the second. *)
Definition twoEntries : World :=
  (Store "/new" (sampleEntry "new" hour)
     (Store "/old" (sampleEntry "old" 0) (initial hour)).2).2.

(** ** Start-up: [getTTL], [getCleanUpPeriod], [startCleanupWorker], [run]
       and [main] *)

Module strconv.

Definition digit (ch : ascii) : option Z :=
  let n := Z.of_N (N_of_ascii ch) in
  if Z.leb 48 n && Z.leb n 57 then Some (n - 48) else None.

Fixpoint digits (acc : Z) (s : string) : option Z :=
  match s with
  | EmptyString => Some acc
  | String ch s' =>
      match digit ch with
      | Some d => digits (acc * 10 + d) s'
      | None => None
      end
  end.

Definition minInt : Z := - 2 ^ 63.
Definition maxInt : Z := 2 ^ 63 - 1.

(** [strconv.Atoi(s)] where [int] has 64 bits: an optional sign, at least
    one decimal digit and nothing else, and a value that fits; [None]
    stands for the error returned otherwise. *)
Definition Atoi (s : string) : option Z :=
  let '(neg, ds) :=
    match s with
    | String "-" s' => (true, s')
    | String "+" s' => (false, s')
    | _ => (false, s)
    end in
  match ds with
  | EmptyString => None
  | _ =>
      match digits 0 ds with
      | Some n =>
          let v := if neg then - n else n in
          if Z.leb minInt v && Z.leb v maxInt then Some v else None
      | None => None
      end
  end.

End strconv.

Module Startup.

(** The process as the configuration code sees it: the two package
    variables, the environment, and what [godotenv.Load] finds in the
    [.env] file ([None] where the file cannot be loaded). *)
Record Process := {
  TTL : Z;
  CleanUpPeriod : Z;
  environ : gmap string string;
  dotenv : option (gmap string string)
}.

(** How a computation of the start-up ends: with a result, in
    [log.Fatal] or [log.Fatalf] (the format or message is recorded), or in
    a panic. *)
Inductive outcome (A : Type) :=
| Done (a : A) (p : Process)
| Fatal (format : string)
| Panic (msg : string).

Arguments Done {A} a p.
Arguments Fatal {A} format.
Arguments Panic {A} msg.

Definition Boot (A : Type) : Type := Process → outcome A.

#[export] Instance Boot_ret : MRet Boot := λ A a p, Done a p.
#[export] Instance Boot_bind : MBind Boot :=
  λ A B f m p,
    match m p with
    | Done a p' => f a p'
    | Fatal s => Fatal s
    | Panic s => Panic s
    end.

Definition getProcess : Boot Process := λ p, Done p p.
Definition fatal {A} (format : string) : Boot A := λ _, Fatal format.
Definition panic {A} (msg : string) : Boot A := λ _, Panic msg.

Definition setTTL (d : Z) : Boot unit :=
  λ p, Done tt {| TTL := d; CleanUpPeriod := CleanUpPeriod p;
                  environ := environ p; dotenv := dotenv p |}.

Definition setCleanUpPeriod (d : Z) : Boot unit :=
  λ p, Done tt {| TTL := TTL p; CleanUpPeriod := d;
                  environ := environ p; dotenv := dotenv p |}.

(** [godotenv.Load()]: the variables of [.env] enter the environment,
    except those the environment already defines; the result tells
    whether the file could be loaded. *)
Definition Load : Boot bool :=
  λ p, match dotenv p with
       | Some f =>
           Done true {| TTL := TTL p; CleanUpPeriod := CleanUpPeriod p;
                        environ := environ p ∪ f; dotenv := dotenv p |}
       | None => Done false p
       end.

(** [os.Getenv(key)] *)
Definition Getenv (key : string) : Boot string :=
  λ p, Done (default "" (environ p !! key)) p.

(** [time.Hour], in nanoseconds. *)
Definition Hour : Z := 3600000000000.

(** A 64-bit signed integer after an operation that may overflow. *)
Definition wrap64 (z : Z) : Z := (z + 2 ^ 63) mod 2 ^ 64 - 2 ^ 63.

(** [time.Duration(hours) * time.Hour] *)
Definition hoursToDuration (hours : Z) : Z := wrap64 (hours * Hour).

(** [getTTL()] *)
Definition getTTL : Boot Z :=
  p ← getProcess;
  if negb (Z.eqb (TTL p) 0) then mret (TTL p)
  else
    ok ← Load;
    if negb ok then fatal "error loading .env file %s"
    else
      s ← Getenv "TTL";
      match strconv.Atoi s with
      | None => fatal "cannot convert ttl to int %s"
      | Some hours =>
          setTTL (hoursToDuration hours);;
          p ← getProcess;
          mret (TTL p)
      end.

(** [getCleanUpPeriod()] *)
Definition getCleanUpPeriod : Boot Z :=
  p ← getProcess;
  if negb (Z.eqb (CleanUpPeriod p) 0) then mret (CleanUpPeriod p)
  else
    ok ← Load;
    if negb ok then fatal "error loading .env file %s"
    else
      s ← Getenv "CLEAN_UP_PERIOD";
      match strconv.Atoi s with
      | None => fatal "cannot convert ttl to int %s"
      | Some hours =>
          setCleanUpPeriod (hoursToDuration hours);;
          p ← getProcess;
          mret (CleanUpPeriod p)
      end.

(** The cleanup worker once it runs: the interval of its ticker and the
    [ttl] it passes to every [c.cleanup(ttl)]. *)
Record Worker := {
  interval : Z;
  workerTTL : Z
}.

(** The goroutine of [c.startCleanupWorker(i)] up to its loop:
    [time.NewTicker(i)] panics for an interval that is not positive; then
    [getTTL()]. The loop that follows runs [c.cleanup(ttl)] at each tick. *)
Definition cleanupWorker (i : Z) : Boot Worker :=
  if Z.leb i 0 then panic "non-positive interval for NewTicker"
  else
    ttl ← getTTL;
    mret {| interval := i; workerTTL := ttl |}.

(** [c.startCleanupWorker(i)]: the [go] statement hands the goroutine
    over and returns at once; nothing of the goroutine has run by then,
    and a panic of the goroutine is not a panic of the caller. *)
Definition startCleanupWorker (i : Z) : Boot (Boot Worker) :=
  mret (cleanupWorker i).

(** One tick of the worker's loop: [c.cleanup(ttl)]. *)
Definition workerTick (wk : Worker) (nowAt : string → Z) : M unit :=
  cleanup nowAt (workerTTL wk).

(** [run()] up to the point where it starts to listen: the proxy, the
    cache with the configured [ttl], and the goroutine of the cleanup
    worker, started and left to itself. After this point [run] writes
    neither the package variables nor the environment, so whenever the
    goroutine comes to run it finds them as they are left here. *)
Definition beforeListen : Boot (World * Boot Worker) :=
  let rp := newReverseProxy {| Scheme := "https"; Host := "dummyjson.com";
                               Path := ""; RawQuery := "" |} in
  ttl ← getTTL;
  let c := newCache ttl in
  cup ← getCleanUpPeriod;
  g ← startCleanupWorker cup;
  mret ({| c := c; rp := rp; events := [] |}, g).

(** [run()], for a [srv.ListenAndServe()] that returns: [listen] is what
    it returns (the library documents an error that is never nil; the code
    provides for nil all the same) and [close] what the deferred
    [srv.Close()] returns. On an error of [ListenAndServe], [log.Fatal(err)]
    ends the process and the deferred function does not run; otherwise
    [run] returns nil through the deferred function, which ends the
    process in [log.Fatal] when the server cannot be closed. What the
    goroutine of the worker does meanwhile is no part of this outcome. *)
Definition run (listen close : option error) : Boot (option error) :=
  _ ← beforeListen;
  match listen with
  | Some err => fatal (Error err)
  | None =>
      match close with
      | Some _ => fatal "Cannot close server"
      | None => mret None
      end
  end.

(** [main()] *)
Definition main (listen close : option error) : Boot unit :=
  err ← run listen close;
  match err with
  | Some _ => panic "unexpected error during runtime"
  | None => mret tt
  end.

(** A process that has not read its configuration yet. *)
Definition unconfigured (env : gmap string string) (file : option (gmap string string))
  : Process :=
  {| TTL := 0; CleanUpPeriod := 0; environ := env; dotenv := file |}.

(** The process [p] in other surroundings. *)
Definition moved (env : gmap string string) (file : option (gmap string string))
    (p : Process) : Process :=
  {| TTL := TTL p; CleanUpPeriod := CleanUpPeriod p;
     environ := env; dotenv := file |}.

End Startup.

(** A sample [.env] file. *)
Definition sampleDotenv : gmap string string :=
  {["TTL" := "3"; "CLEAN_UP_PERIOD" := "1"]}.

(** ** Further views for the keys *)

(** Path and query of a URL, the request-target in origin form. *)
Definition pathQuery (u : URL) : string :=
  if String.eqb (RawQuery u) "" then Path u
  else Path u +:+ "?" +:+ RawQuery u.

(** A request whose target the client sent in absolute form, as it may to
    a proxy: [GET http://other.example/products/9 HTTP/1.1]. *)
Definition absoluteRequest : Request :=
  {| Method := "GET";
     RequestURI := "http://other.example/products/9";
     ReqURL := {| Scheme := "http"; Host := "other.example";
                  Path := "/products/9"; RawQuery := "" |};
     ReqHost := "other.example";
     ReqHeader := ∅ |}.

(** The keys for which the operations ask the cache: the [RequestURI]s of
    the GET requests served. *)
Definition keysOfGETs (ops : list op) : list string :=
  omap (λ o, match o with
             | Serve _ _ r =>
                 if String.eqb (Method r) MethodGet then Some (RequestURI r) else None
             | Tick _ => None
             end) ops.

(** * Properties *)

(** ** Headers *)

Example canon_x_cache : Hdr.canon "x-cache" = "X-Cache".
Proof. reflexivity. Qed.

Example canon_content_type : Hdr.canon "content-TYPE" = "Content-Type".
Proof. reflexivity. Qed.

Example canon_invalid : Hdr.canon "x cache" = "x cache".
Proof. reflexivity. Qed.

Lemma Clone_id (h : Header) : Hdr.Clone h = h.
Proof.
  apply map_eq; intros k. unfold Hdr.Clone. rewrite lookup_fmap.
  destruct (h !! k) as [vv|]; simpl; [|done]. by rewrite app_nil_r.
Qed.

Lemma canon_X_Cache : Hdr.canon "X-Cache" = "X-Cache".
Proof. reflexivity. Qed.

Lemma addValues_lookup (k0 : string) (vv : list string) (dst : Header) (k : string) :
  addValues k0 vv dst !! k =
    if decide (k = Hdr.canon k0) then
      match vv with
      | [] => dst !! k
      | _ => Some (default [] (dst !! k) ++ vv)
      end
    else dst !! k.
Proof.
  unfold addValues. revert dst. induction vv as [|v vv IH]; intros dst; simpl.
  - by destruct (decide _).
  - rewrite IH. unfold Hdr.Add. destruct (decide (k = Hdr.canon k0)) as [->|Hne].
    + rewrite lookup_insert_eq. simpl. destruct vv; simpl; [done|].
      by rewrite <- app_assoc.
    + by rewrite lookup_insert_ne.
Qed.

(** Whatever the order in which the range visits the entries of a parsed
    header set, the destination receives each key's values, in their
    order, after the values it already holds for that key. *)
Lemma addAll_lookup (l : list (string * list string)) (dst : Header) (k : string) :
  NoDup l.*1 →
  (∀ k vv, (k, vv) ∈ l → Hdr.canon k = k) →
  addAll l dst !! k =
    match (list_to_map l : Header) !! k with
    | Some (v :: vv) => Some (default [] (dst !! k) ++ v :: vv)
    | _ => dst !! k
    end.
Proof.
  unfold addAll. revert dst. induction l as [|[k0 vv0] l IH]; intros dst Hnd Hc; simpl.
  - by rewrite lookup_empty.
  - apply NoDup_cons in Hnd as [Hk0 Hnd].
    rewrite IH; [|done|intros; eapply Hc; by right].
    rewrite addValues_lookup, (Hc k0 vv0) by left.
    destruct (decide (k = k0)) as [->|Hne].
    + rewrite lookup_insert_eq.
      rewrite (not_elem_of_list_to_map_1 _ _ Hk0). by destruct vv0.
    + by rewrite lookup_insert_ne.
Qed.

Lemma addAll_parsed (h : Header) (l : list (string * list string)) :
  Hdr.parsed h → l ≡ₚ map_to_list h → addAll l ∅ = h.
Proof.
  intros Hp Hl. apply map_eq; intros k.
  assert (NoDup l.*1) as Hnd by (rewrite Hl; apply NoDup_fst_map_to_list).
  assert ((list_to_map l : Header) = h) as Hm.
  { rewrite <- (list_to_map_to_list h). by apply list_to_map_proper. }
  rewrite addAll_lookup, Hm; [|done|].
  - rewrite lookup_empty. destruct (h !! k) as [[|v vv]|] eqn:E; [|done..].
    by destruct (Hp _ _ E).
  - intros k' vv Hin. rewrite Hl in Hin. apply elem_of_map_to_list in Hin.
    by destruct (Hp _ _ Hin).
Qed.

(** ** The capture *)

Lemma isCacheStale_true (now a ttl0 : Z) :
  isCacheStale now a ttl0 = true ↔ a + ttl0 < now.
Proof. unfold isCacheStale, time.After, time.Add. apply Z.ltb_lt. Qed.

Lemma isCacheStale_false (now a ttl0 : Z) :
  isCacheStale now a ttl0 = false ↔ now <= a + ttl0.
Proof. unfold isCacheStale, time.After, time.Add. apply Z.ltb_ge. Qed.

Ltac run_M :=
  repeat (unfold mbind, M_bind, mret, M_ret, get, setCache, setProxy, emit,
          logPrintf, Store in *; simpl in * ).

Lemma readable_captureErr (b : Body) : readable b ↔ captureErr b = None.
Proof.
  unfold readable, captureErr.
  destruct (readErr b), (closeErr b); split; try (intros [? ?]); intros; try split; congruence.
Qed.

Lemma saveCacheData_ok (now : Z) (res : Response) (x : string) (w : World) :
  readable (ResBody res) →
  saveCacheData now res x w =
    ((tagged x res, None),
     stored (RequestURI (ResRequest res)) (captured now res) [EvLock; EvUnlock] w).
Proof.
  intros [Hr Hc]. unfold saveCacheData, io.ReadAll, io.Close. simpl.
  rewrite Hr, Hc. run_M. unfold stored, captured, tagged, withData; simpl.
  by rewrite Clone_id, <- app_assoc.
Qed.

Lemma saveCacheData_fail (now : Z) (res : Response) (x : string) (w : World) (e : error) :
  captureErr (ResBody res) = Some e →
  saveCacheData now res x w =
    ((withBody (io.ReadAll (ResBody res)).2 res, Some e), w).
Proof.
  unfold captureErr, saveCacheData, io.ReadAll, io.Close. simpl.
  destruct (readErr (ResBody res)) as [e'|] eqn:Hr; simpl.
  - by intros [= ->].
  - by intros ->.
Qed.

(** ** The handler, case by case *)

Lemma handler_other (env : Env) (w : ResponseWriter) (r : Request) (wd : World) :
  Method r ≠ MethodGet →
  handler env w r wd = ServeHTTP env w r wd.
Proof.
  intros Hm. unfold handler. apply String.eqb_neq in Hm. rewrite Hm. by run_M.
Qed.

Lemma handler_hit (env : Env) (w : ResponseWriter) (r : Request) (wd : World) (d : cacheData) :
  Method r = MethodGet →
  freshEntry (nowLookup env) (RequestURI r) wd = Some d →
  handler env w r wd =
    writeToResponseCacheHit w d (addEvents [EvRLock; EvRUnlock] wd).
Proof.
  intros Hm Hf. unfold handler, Lookup, freshEntry in *. rewrite Hm. run_M.
  destruct (data (c wd) !! RequestURI r) as [d'|]; [|done]. simpl.
  destruct (isCacheStale _ _ _); [done|]. injection Hf as ->. simpl.
  unfold addEvents. rewrite <- app_assoc. simpl.
  by destruct (writeToResponseCacheHit _ _ _).
Qed.

Lemma handler_miss (env : Env) (w : ResponseWriter) (r : Request) (wd : World) :
  Method r = MethodGet →
  freshEntry (nowLookup env) (RequestURI r) wd = None →
  handler env w r wd = ServeHTTP env w r (missed wd).
Proof.
  intros Hm Hf. unfold handler, Lookup, freshEntry, handleMissedCache in *.
  rewrite Hm. run_M. unfold missed. rewrite <- app_assoc. simpl.
  destruct (data (c wd) !! RequestURI r) as [d'|]; simpl; [|done].
  by destruct (isCacheStale _ _ _).
Qed.

(** ** The forwarder, case by case *)

Lemma ServeHTTP_unreachable env w r wd e :
  upstream env wd r = inr e →
  ServeHTTP env w r wd =
    (WriteHeader StatusBadGateway w,
     addEvents [EvRoundTrip (outreq wd r); EvLog ("http: proxy error: " +:+ Error e)] wd).
Proof.
  unfold upstream, ServeHTTP, outreq. intros H. run_M.
  destruct (transport env _); [done|]. injection H as ->. run_M.
  unfold addEvents. by rewrite <- app_assoc.
Qed.

Lemma ServeHTTP_no_hook env w r wd res :
  upstream env wd r = inl res →
  ModifyResponse (rp wd) = None →
  ServeHTTP env w r wd =
    (relay res w,
     addEvents (EvRoundTrip (outreq wd r) :: copyAbort (ResBody res)) wd).
Proof.
  unfold upstream, ServeHTTP, outreq, copyAbort. intros H Hh. run_M.
  destruct (transport env _) as [res0|]; [|done]. injection H as <-.
  rewrite Hh. run_M.
  destruct (readErr (ResBody res0)); run_M; [|done].
  unfold addEvents. simpl. by rewrite <- !app_assoc.
Qed.

Lemma ServeHTTP_hook_other env w r wd res :
  upstream env wd r = inl res →
  ModifyResponse (rp wd) = Some missedCacheHook →
  Method r ≠ MethodGet →
  ServeHTTP env w r wd =
    (relay res w,
     addEvents (EvRoundTrip (outreq wd r) :: copyAbort (ResBody res)) wd).
Proof.
  unfold upstream, ServeHTTP, outreq, copyAbort. intros H Hh Hm. run_M.
  destruct (transport env _) as [res0|]; [|done]. injection H as <-.
  rewrite Hh. run_M.
  apply String.eqb_neq in Hm. rewrite Hm. run_M.
  destruct (readErr (ResBody res0)); run_M; [|done].
  unfold addEvents. simpl. by rewrite <- !app_assoc.
Qed.

Lemma ServeHTTP_hook_capture env w r wd res :
  upstream env wd r = inl res →
  ModifyResponse (rp wd) = Some missedCacheHook →
  Method r = MethodGet →
  readable (ResBody res) →
  ServeHTTP env w r wd =
    (relay (tagged XCacheMiss res) w,
     stored (RequestURI r) (captured (nowCapture env) res)
       [EvRoundTrip (outreq wd r); EvLock; EvUnlock] wd).
Proof.
  unfold upstream, ServeHTTP, outreq. intros H Hh Hm Hr. run_M.
  destruct (transport env _) as [res0|]; [|done]. injection H as <-.
  rewrite Hh. run_M. rewrite Hm. simpl.
  rewrite saveCacheData_ok by done. run_M.
  unfold stored. simpl. by rewrite <- app_assoc.
Qed.

Lemma ServeHTTP_hook_abandon env w r wd res e :
  upstream env wd r = inl res →
  ModifyResponse (rp wd) = Some missedCacheHook →
  Method r = MethodGet →
  captureErr (ResBody res) = Some e →
  ServeHTTP env w r wd =
    (relay (withBody (io.ReadAll (ResBody res)).2 res) w,
     addEvents ([EvRoundTrip (outreq wd r);
                 EvLog ("error while saving stale cache " +:+ Error e)]
                ++ copyAbort (ResBody res)) wd).
Proof.
  unfold upstream, ServeHTTP, outreq, copyAbort. intros H Hh Hm Hr. run_M.
  destruct (transport env _) as [res0|]; [|done]. injection H as <-.
  rewrite Hh. run_M. rewrite Hm. simpl.
  erewrite saveCacheData_fail by done. run_M.
  destruct (readErr (ResBody res0)); run_M;
    unfold addEvents; simpl; by rewrite <- !app_assoc.
Qed.

(** ** The cleanup pass *)

Section Cleanup.

Variable nowAt : string → Z.
Variable ttl0 : Z.

Lemma cleanupRange_eq (entries : list (string * cacheData)) (w : World) :
  cleanupRange nowAt ttl0 entries w =
    (tt, {| c := withData (swept nowAt ttl0 entries (data (c w))) (c w);
            rp := rp w;
            events := events w ++ reports nowAt ttl0 entries |}).
Proof.
  revert w. induction entries as [|[key d] rest IH]; intros w.
  - destruct w as [[m t] p evs]. unfold reports, withData. simpl.
    by rewrite app_nil_r.
  - simpl. run_M.
    destruct (isCacheStale (nowAt key) (age d) ttl0) eqn:E; run_M;
      rewrite IH; unfold reports, swept, staleAt, withData; simpl; rewrite E; simpl.
    + by rewrite <- app_assoc.
    + done.
Qed.

Lemma swept_lookup (entries : list (string * cacheData))
    (m : gmap string cacheData) (k : string) :
  swept nowAt ttl0 entries m !! k =
    if existsb (λ kd, bool_decide (kd.1 = k) && staleAt nowAt ttl0 kd) entries
    then None else m !! k.
Proof.
  unfold swept. revert m. induction entries as [|[key d] rest IH]; intros m; simpl.
  - done.
  - rewrite IH. destruct (existsb _ rest); [by rewrite orb_true_r|].
    rewrite orb_false_r. destruct (staleAt nowAt ttl0 (key, d)); simpl.
    + case_bool_decide as Hk; simpl.
      * subst. apply lookup_delete_eq.
      * by apply lookup_delete_ne.
    + by rewrite andb_false_r.
Qed.

(** After the range has visited every entry of the mapping, an entry
    remains exactly when it was not stale when it was examined. *)
Lemma swept_all_lookup (m : gmap string cacheData) (k : string) :
  swept nowAt ttl0 (map_to_list m) m !! k =
    match m !! k with
    | Some d => if isCacheStale (nowAt k) (age d) ttl0 then None else Some d
    | None => None
    end.
Proof.
  rewrite swept_lookup.
  destruct (existsb _ _) eqn:E.
  - apply existsb_exists in E as [[k' d] [Hin Hb]].
    apply andb_true_iff in Hb as [Hk Hs]. apply bool_decide_eq_true in Hk.
    simpl in Hk. subst k'. apply list_elem_of_In, elem_of_map_to_list in Hin.
    rewrite Hin. unfold staleAt in Hs. simpl in Hs. by rewrite Hs.
  - destruct (m !! k) as [d|] eqn:Hm; [|done].
    destruct (isCacheStale (nowAt k) (age d) ttl0) eqn:Hs; [|done].
    exfalso. apply not_true_iff_false in E. apply E.
    apply existsb_exists. exists (k, d). split.
    + by apply list_elem_of_In, elem_of_map_to_list.
    + simpl. rewrite bool_decide_eq_true_2 by done. done.
Qed.

Lemma cleanup_eq (w : World) :
  cleanup nowAt ttl0 w =
    (tt, {| c := withData (swept nowAt ttl0 (map_to_list (data (c w))) (data (c w))) (c w);
            rp := rp w;
            events := events w ++ EvLock :: reports nowAt ttl0 (map_to_list (data (c w)))
                        ++ [EvLog "cache cleanup completed"; EvUnlock] |}).
Proof.
  unfold cleanup. run_M. rewrite cleanupRange_eq. simpl.
  by rewrite <- !app_assoc.
Qed.

End Cleanup.

(** ** What one request does to the cache *)

(** A request leaves the cache as it is, or, for a missed GET, stores one
    entry under the request's own [RequestURI]; the [ttl] never changes. *)
Lemma handler_cache (env : Env) (w : ResponseWriter) (r : Request) (wd : World) :
  c (handler env w r wd).2 = c wd ∨
  (Method r = MethodGet ∧
   freshEntry (nowLookup env) (RequestURI r) wd = None ∧
   ∃ res, upstream env wd r = inl res ∧ readable (ResBody res) ∧
     c (handler env w r wd).2 =
       withData (<[RequestURI r := captured (nowCapture env) res]> (data (c wd))) (c wd)).
Proof.
  destruct (decide (Method r = MethodGet)) as [Hm|Hm].
  - destruct (freshEntry (nowLookup env) (RequestURI r) wd) as [d|] eqn:Hf.
    + left. rewrite (handler_hit _ _ _ _ d) by done.
      unfold writeToResponseCacheHit. simpl. destruct (wErr w); by run_M.
    + rewrite handler_miss by done.
      assert (upstream env (missed wd) r = upstream env wd r) as Hu by done.
      destruct (upstream env wd r) as [res|e] eqn:Hup.
      * destruct (captureErr (ResBody res)) as [e|] eqn:Hce.
        -- left. by erewrite ServeHTTP_hook_abandon.
        -- right. apply readable_captureErr in Hce.
           do 2 (split; [done|]). exists res. do 2 (split; [done|]).
           by erewrite ServeHTTP_hook_capture.
      * left. by erewrite ServeHTTP_unreachable.
  - left. rewrite handler_other by done.
    destruct (upstream env wd r) as [res|e] eqn:Hup.
    + destruct (ModifyResponse (rp wd)) as [[]|] eqn:Hh.
      * by erewrite ServeHTTP_hook_other.
      * by erewrite ServeHTTP_no_hook.
    + by erewrite ServeHTTP_unreachable.
Qed.

Lemma tick_cache (nowAt : string → Z) (wd : World) :
  c (tick nowAt wd).2 =
    withData (swept nowAt (ttl (c wd)) (map_to_list (data (c wd))) (data (c wd))) (c wd).
Proof. unfold tick. run_M. by rewrite cleanup_eq. Qed.

Lemma step_ttl (o : op) (wd : World) : ttl (c (step o wd)) = ttl (c wd).
Proof.
  destruct o as [env e r|nowAt]; simpl.
  - destruct (handler_cache env (newResponseWriter e) r wd) as [->|(_ & _ & res & _ & _ & ->)]; done.
  - by rewrite tick_cache.
Qed.

(** ** Reachable caches hold parsed header sets *)

Lemma upstream_ResHeader env wd r res :
  upstream env wd r = inl res →
  ∃ res0, transport env (outreq wd r) = inl res0 ∧ ResHeader res = ResHeader res0.
Proof.
  unfold upstream. destruct (transport env _) as [res0|]; [|done].
  intros [= <-]. by exists res0.
Qed.

Lemma step_parsedCache (o : op) (wd : World) :
  parsedOp o → parsedCache wd → parsedCache (step o wd).
Proof.
  intros Ho Hwd k d. destruct o as [env e r|nowAt]; simpl.
  - destruct (handler_cache env (newResponseWriter e) r wd)
      as [->|(_ & _ & res & Hup & _ & ->)]; [apply Hwd|].
    simpl. rewrite lookup_insert. case_decide; [|apply Hwd].
    intros [= <-]. simpl.
    apply upstream_ResHeader in Hup as (res0 & Ht & ->). by eapply Ho.
  - rewrite tick_cache. simpl. rewrite swept_all_lookup.
    destruct (data (c wd) !! k) as [d'|] eqn:E; [|done].
    destruct (isCacheStale _ _ _); [done|]. intros [= <-]. by eapply Hwd.
Qed.

Lemma run_parsedCache (ops : list op) (ttl0 : Z) :
  Forall parsedOp ops → parsedCache (run ops (initial ttl0)).
Proof.
  unfold run. assert (parsedCache (initial ttl0)) as H0 by (intros k d; done).
  revert H0. generalize (initial ttl0).
  induction ops as [|o ops IH]; intros wd Hwd Hops; simpl; [done|].
  apply Forall_cons in Hops as [Ho Hops].
  apply IH; [|done]. by apply step_parsedCache.
Qed.

(** ** Events *)

Lemma roundTrips_app (l1 l2 : list event) :
  roundTrips (l1 ++ l2) = (roundTrips l1 + roundTrips l2)%nat.
Proof. unfold roundTrips. by rewrite List.filter_app, length_app. Qed.

Lemma addEvents_nil (wd : World) : addEvents [] wd = wd.
Proof. destruct wd. unfold addEvents. simpl. by rewrite app_nil_r. Qed.

Lemma addEvents_addEvents (l1 l2 : list event) (wd : World) :
  addEvents l2 (addEvents l1 wd) = addEvents (l1 ++ l2) wd.
Proof. unfold addEvents. simpl. by rewrite app_assoc. Qed.

Lemma writeToResponseCacheHit_eq (w : ResponseWriter) (d : cacheData) (wd : World) :
  writeToResponseCacheHit w d wd = (hitWriter w d, addEvents (writeLog (wErr w)) wd).
Proof.
  unfold writeToResponseCacheHit, hitWriter. simpl.
  destruct (wErr w); run_M; [done|]. by rewrite addEvents_nil.
Qed.

(** A header set the transport parsed reaches the client of a hit as it
    was stored, but for the [X-Cache] key. *)
Lemma hitWriter_header (e : option error) (d : cacheData) :
  Hdr.parsed (header d) →
  wHeader (hitWriter (newResponseWriter e) d) = <["X-Cache" := [XCacheHit]]> (header d).
Proof.
  intros Hp. unfold hitWriter, Hdr.Set_. simpl.
  by rewrite (addAll_parsed (header d)).
Qed.

Lemma roundTrips_copyAbort (b : Body) : roundTrips (copyAbort b) = 0%nat.
Proof. unfold copyAbort. by destruct (readErr b). Qed.

Lemma copyAbort_no_cache_access (b : Body) :
  existsb isCacheAccess (copyAbort b) = false.
Proof. unfold copyAbort. by destruct (readErr b). Qed.

(** Whatever the upstream does, serving through the forwarder goes
    upstream once and changes nothing but the cache and the log. *)
Lemma ServeHTTP_frame env w r wd :
  ∃ evs, events (ServeHTTP env w r wd).2 = events wd ++ EvRoundTrip (outreq wd r) :: evs
         ∧ roundTrips evs = 0%nat
         ∧ rp (ServeHTTP env w r wd).2 = rp wd.
Proof.
  destruct (upstream env wd r) as [res|e] eqn:Hup.
  - destruct (ModifyResponse (rp wd)) as [[]|] eqn:Hh.
    + destruct (decide (Method r = MethodGet)) as [Hm|Hm].
      * destruct (captureErr (ResBody res)) as [e|] eqn:Hce.
        -- erewrite ServeHTTP_hook_abandon by done. simpl. eexists.
           split; [done|]. split; [|done]. apply (roundTrips_copyAbort (ResBody res)).
        -- apply readable_captureErr in Hce.
           erewrite ServeHTTP_hook_capture by done. by eexists.
      * erewrite ServeHTTP_hook_other by done. simpl. eexists.
        split; [done|]. split; [|done]. apply roundTrips_copyAbort.
    + erewrite ServeHTTP_no_hook by done. simpl. eexists.
      split; [done|]. split; [|done]. apply roundTrips_copyAbort.
  - erewrite ServeHTTP_unreachable by done. by eexists.
Qed.

(** ** Canonical keys *)

Lemma canonByte_idem (u : bool) (ch : ascii) :
  MIME.canonByte u (MIME.canonByte u ch) = MIME.canonByte u ch.
Proof. destruct u, ch as [[] [] [] [] [] [] [] []]; reflexivity. Qed.

Lemma canonByte_valid (u : bool) (ch : ascii) :
  MIME.validHeaderFieldByte (MIME.canonByte u ch) = MIME.validHeaderFieldByte ch.
Proof. destruct u, ch as [[] [] [] [] [] [] [] []]; reflexivity. Qed.

Lemma canonLoop_idem (u : bool) (s : string) :
  MIME.canonLoop u (MIME.canonLoop u s) = MIME.canonLoop u s.
Proof.
  revert u. induction s as [|ch s IH]; intros u; simpl; [done|].
  by rewrite canonByte_idem, IH.
Qed.

Lemma canonLoop_valid (u : bool) (s : string) :
  MIME.allValid (MIME.canonLoop u s) = MIME.allValid s.
Proof.
  revert u. induction s as [|ch s IH]; intros u; simpl; [done|].
  by rewrite canonByte_valid, IH.
Qed.

(** [CanonicalMIMEHeaderKey] is idempotent. *)
Lemma canon_idem (k : string) : Hdr.canon (Hdr.canon k) = Hdr.canon k.
Proof.
  unfold Hdr.canon, MIME.CanonicalMIMEHeaderKey.
  destruct (MIME.allValid k) eqn:E; [|by rewrite E].
  by rewrite canonLoop_valid, E, canonLoop_idem.
Qed.

(** Every key that [Add] puts into a header map is canonical. *)
Lemma addAll_keys (l : list (string * list string)) (dst : Header) (k : string) :
  (∀ k, is_Some (dst !! k) → Hdr.canon k = k) →
  is_Some (addAll l dst !! k) → Hdr.canon k = k.
Proof.
  unfold addAll. revert dst. induction l as [|[k0 vv0] l IH]; intros dst Hdst; simpl.
  - apply Hdst.
  - apply IH. intros k'. rewrite addValues_lookup. simpl.
    case_decide as Hk; [|apply Hdst]. subst k'. intros _. apply canon_idem.
Qed.

(** ** The sample header set *)

Lemma sampleHeader_parsed : Hdr.parsed sampleHeader.
Proof.
  change (map_Forall (λ k vv, Hdr.canon k = k ∧ vv ≠ []) sampleHeader).
  apply (bool_decide_unpack _). by vm_compute.
Qed.

(** ** The scenario of the specification *)

Example scenarioA_miss :
  wHeader scenarioA.1 !! "X-Cache" = Some ["MISS"] ∧
  wBody scenarioA.1 = bytes "first" ∧
  age <$> data (c scenarioA.2) !! "/x" = Some 0.
Proof. repeat split; reflexivity. Qed.

Example scenarioB_hit :
  wHeader scenarioB.1 !! "X-Cache" = Some ["HIT"] ∧
  wBody scenarioB.1 = bytes "first" ∧
  c scenarioB.2 = c scenarioA.2.
Proof. repeat split; reflexivity. Qed.

Example scenarioC_miss :
  wHeader scenarioC.1 !! "X-Cache" = Some ["MISS"] ∧
  wBody scenarioC.1 = bytes "third" ∧
  age <$> data (c scenarioC.2) !! "/x" = Some (61 * minute).
Proof. repeat split; reflexivity. Qed.

Example scenarioBoundary_hit :
  wHeader scenarioBoundary.1 !! "X-Cache" = Some ["HIT"] ∧
  wBody scenarioBoundary.1 = bytes "first".
Proof. repeat split; reflexivity. Qed.

(** ** The keys of the cache *)

Lemma run_snoc (ops : list op) (o : op) (wd : World) :
  run (ops ++ [o]) wd = step o (run ops wd).
Proof. unfold run. by rewrite foldl_app. Qed.

Lemma step_keys (o : op) (wd : World) (k : string) :
  is_Some (data (c (step o wd)) !! k) →
  is_Some (data (c wd) !! k) ∨ k ∈ keysOfGETs [o].
Proof.
  destruct o as [env e r|nowAt]; simpl.
  - destruct (handler_cache env (newResponseWriter e) r wd)
      as [->|(Hm & _ & res & _ & _ & ->)]; [by left|].
    simpl. rewrite lookup_insert. case_decide as Hk; [|by left].
    intros _. right. unfold keysOfGETs. simpl. rewrite Hm. simpl.
    subst k. by left.
  - rewrite tick_cache. simpl. rewrite swept_all_lookup.
    destruct (data (c wd) !! k) as [d'|]; [|by intros [? ?]]. intros _. by left.
Qed.

Lemma run_keys (ops : list op) (wd : World) (k : string) :
  is_Some (data (c (run ops wd)) !! k) →
  is_Some (data (c wd) !! k) ∨ k ∈ keysOfGETs ops.
Proof.
  induction ops as [|o ops IH] using rev_ind; [by left|].
  rewrite run_snoc. intros Hk. unfold keysOfGETs. rewrite omap_app.
  apply step_keys in Hk as [Hk|Hk].
  - destruct (IH Hk) as [?|?]; [by left|]. right. apply elem_of_app. by left.
  - right. apply elem_of_app. by right.
Qed.

(** * The claims *)

(** ** C1: the second GET within the TTL *)

Lemma Add_parsed (k v : string) (h : Header) :
  Hdr.canon k = k → Hdr.parsed h → Hdr.parsed (Hdr.Add k v h).
Proof.
  intros Hk Hp k' vv. unfold Hdr.Add. rewrite Hk, lookup_insert.
  case_decide; [|apply Hp]. subst k'. intros [= <-]. split; [done|].
  by destruct (default [] (h !! k)).
Qed.

(** An entry stays in the cache, as it is, through every operation that
    observes the clock within the entry's time to live. *)
Lemma step_keeps_entry (o : op) (wd : World) (key : string) (d : cacheData) :
  data (c wd) !! key = Some d →
  quiet (age d + ttl (c wd)) key o →
  data (c (step o wd)) !! key = Some d.
Proof.
  intros Hd Hq. destruct o as [env e r|nowAt]; simpl in *.
  - destruct (handler_cache env (newResponseWriter e) r wd)
      as [->|(Hmeth & Hf & res & _ & _ & ->)]; [done|].
    simpl. rewrite lookup_insert. case_decide as Hk; [|done].
    exfalso. specialize (Hq Hmeth Hk). unfold freshEntry in Hf.
    rewrite Hk, Hd in Hf. apply isCacheStale_false in Hq. by rewrite Hq in Hf.
  - rewrite tick_cache. simpl. rewrite swept_all_lookup, Hd.
    apply isCacheStale_false in Hq. by rewrite Hq.
Qed.

Lemma run_ttl (ops : list op) (wd : World) : ttl (c (run ops wd)) = ttl (c wd).
Proof.
  unfold run. revert wd. induction ops as [|o ops IH]; intros wd; simpl; [done|].
  by rewrite IH, step_ttl.
Qed.

Lemma run_keeps_entry (ops : list op) (wd : World) (key : string) (d : cacheData) :
  data (c wd) !! key = Some d →
  Forall (quiet (age d + ttl (c wd)) key) ops →
  data (c (run ops wd)) !! key = Some d.
Proof.
  unfold run. revert wd. induction ops as [|o ops IH]; intros wd Hd Hq; simpl; [done|].
  apply Forall_cons in Hq as [Ho Hq].
  apply IH; [by apply step_keeps_entry|]. by rewrite step_ttl.
Qed.

Lemma relay_tagged_header (e : option error) (x : string) (res : Response) :
  Hdr.parsed (ResHeader res) →
  wHeader (relay (tagged x res) (newResponseWriter e)) =
    <["X-Cache" := default [] (ResHeader res !! "X-Cache") ++ [x]]> (ResHeader res).
Proof.
  intros Hp. unfold relay. simpl.
  rewrite (addAll_parsed (Hdr.Add "X-Cache" x (ResHeader res))); [done| |done].
  by apply Add_parsed.
Qed.

(** C1: let a GET request miss and its response be captured at time
    [t1]. Then, after any operations that observe the clock no later than
    [t1 + ttl] where the entry is concerned (other requests, other
    captures, cleanup passes), a second GET with the same resource
    identifier, looked up no later than [t1 + ttl], is answered from the
    cache, without going upstream, with [X-Cache: HIT]; its status and
    body are those captured, and its headers are, but for [X-Cache], those
    captured, which are also those of the first response. *)
Theorem second_GET_is_hit (env1 env2 : Env) (e1 e2 : option error)
    (r1 r2 : Request) (wd : World) (res : Response) (ops : list op) :
  Method r1 = MethodGet →
  Method r2 = MethodGet →
  RequestURI r2 = RequestURI r1 →
  freshEntry (nowLookup env1) (RequestURI r1) wd = None →
  upstream env1 wd r1 = inl res →
  readable (ResBody res) →
  Hdr.parsed (ResHeader res) →
  Forall (quiet (nowCapture env1 + ttl (c wd)) (RequestURI r1)) ops →
  nowLookup env2 <= nowCapture env1 + ttl (c wd) →
  let first := handler env1 (newResponseWriter e1) r1 wd in
  let second := handler env2 (newResponseWriter e2) r2 (run ops first.2) in
  data (c first.2) !! RequestURI r1 = Some (captured (nowCapture env1) res) ∧
  wHeader first.1 !! "X-Cache" =
    Some (default [] (ResHeader res !! "X-Cache") ++ [XCacheMiss]) ∧
  wHeader second.1 !! "X-Cache" = Some [XCacheHit] ∧
  roundTrips (events second.2) = roundTrips (events (run ops first.2)) ∧
  wStatus second.1 = Some (StatusCode res) ∧
  wBody second.1 = pending (ResBody res) ∧
  delete "X-Cache" (wHeader second.1) = delete "X-Cache" (ResHeader res) ∧
  wStatus second.1 = wStatus first.1 ∧
  wBody second.1 = wBody first.1 ∧
  delete "X-Cache" (wHeader second.1) = delete "X-Cache" (wHeader first.1).
Proof.
  intros Hm1 Hm2 Huri Hmiss Hup Hr Hp Hq Hnow. cbv zeta.
  set (d := captured (nowCapture env1) res).
  assert (handler env1 (newResponseWriter e1) r1 wd =
            (relay (tagged XCacheMiss res) (newResponseWriter e1),
             stored (RequestURI r1) d
               [EvRoundTrip (outreq (missed wd) r1); EvLock; EvUnlock] (missed wd)))
    as ->.
  { rewrite handler_miss by done. by apply ServeHTTP_hook_capture. }
  cbn [fst snd].
  set (wd1 := stored _ _ _ _).
  assert (data (c wd1) !! RequestURI r1 = Some d) as Hd1
    by apply lookup_insert_eq.
  assert (data (c (run ops wd1)) !! RequestURI r1 = Some d) as Hd2
    by (by apply run_keeps_entry).
  assert (freshEntry (nowLookup env2) (RequestURI r2) (run ops wd1) = Some d) as Hf.
  { unfold freshEntry. rewrite Huri, Hd2, run_ttl.
    change (ttl (c wd1)) with (ttl (c wd)).
    apply (isCacheStale_false _ (age d)) in Hnow. by rewrite Hnow. }
  rewrite (handler_hit _ _ _ _ d), writeToResponseCacheHit_eq by done.
  cbn [fst snd]. rewrite hitWriter_header, relay_tagged_header by done.
  rewrite !lookup_insert_eq, !delete_insert_eq.
  do 3 (split; [done|]).
  split.
  { cbn [addEvents events newResponseWriter wErr]. rewrite !roundTrips_app.
    destruct e2; unfold roundTrips; simpl; lia. }
  done.
Qed.

Lemma second_GET_is_hit_witness :
  let r := sampleRequest "GET" "/products/1" in
  let res0 := sampleResponse sampleHeader (sampleBody "{}" None None) in
  let env1 := sampleEnv res0 0 5 in
  let env2 := sampleEnv (sampleResponse ∅ (sampleBody "never" None None)) hour hour in
  let wd := initial hour in
  let res := withRequest (outreq wd r) res0 in
  let first := handler env1 (newResponseWriter None) r wd in
  let second := handler env2 (newResponseWriter None) r (run sampleOps first.2) in
  Method r = MethodGet ∧
  RequestURI r = RequestURI r ∧
  freshEntry (nowLookup env1) (RequestURI r) wd = None ∧
  upstream env1 wd r = inl res ∧
  readable (ResBody res) ∧
  Hdr.parsed (ResHeader res) ∧
  Forall (quiet (nowCapture env1 + ttl (c wd)) (RequestURI r)) sampleOps ∧
  nowLookup env2 <= nowCapture env1 + ttl (c wd) ∧
  wHeader second.1 !! "X-Cache" = Some ["HIT"] ∧
  wBody second.1 = bytes "{}" ∧
  delete "X-Cache" (wHeader second.1) = sampleHeader.
Proof.
  intros r res0 env1 env2 wd res first second.
  assert (Method r = MethodGet) as Hm by reflexivity.
  assert (RequestURI r = RequestURI r) as Huri by reflexivity.
  assert (freshEntry (nowLookup env1) (RequestURI r) wd = None) as Hmiss by reflexivity.
  assert (upstream env1 wd r = inl res) as Hup by reflexivity.
  assert (readable (ResBody res)) as Hr by (split; reflexivity).
  assert (Hdr.parsed (ResHeader res)) as Hp by exact sampleHeader_parsed.
  assert (Forall (quiet (nowCapture env1 + ttl (c wd)) (RequestURI r)) sampleOps) as Hq.
  { unfold sampleOps. repeat constructor; simpl; unfold hour; intros; lia. }
  assert (nowLookup env2 <= nowCapture env1 + ttl (c wd)) as Hnow
    by (simpl; unfold hour; lia).
  do 8 (split; [assumption|]).
  pose proof (second_GET_is_hit env1 env2 None None r r wd res sampleOps
                Hm Hm Huri Hmiss Hup Hr Hp Hq Hnow) as H.
  cbv zeta in H. destruct H as (_ & _ & Hhit & _ & _ & Hbody & Hhdr & _).
  split; [exact Hhit|]. split; [exact Hbody|].
  etransitivity; [exact Hhdr|reflexivity].
Defined.

(** ** C2: one key for storing and for looking up *)

(** C2, as stated, fails for a request whose target the client sent in
    absolute form: the key is then the whole target, scheme and host
    included, and not path and query. *)
Lemma key_with_scheme_and_host_counterexample :
  let res0 := sampleResponse sampleHeader (sampleBody "{}" None None) in
  let wd := (handler (sampleEnv res0 0 5) (newResponseWriter None)
               absoluteRequest (initial hour)).2 in
  pathQuery (ReqURL absoluteRequest) = "/products/9" ∧
  data (c wd) !! "/products/9" = None ∧
  data (c wd) !! "http://other.example/products/9" = Some (captured 5 res0).
Proof. repeat split; reflexivity. Qed.

(** C2, as the code has it: the key under which the capture hook stores
    an entry and the key under which the handler looks an entry up are the
    same value, the [RequestURI] of the request, that is the request-target
    as the client sent it. A GET [r] that misses and is captured leaves the
    entry under [r.RequestURI] and changes no other key, through the
    handler and for the hook run on its own; a later GET within the time
    to live is answered from that entry exactly when its [RequestURI] is
    the same, whatever its URL, [Host] and headers, and a GET with another
    [RequestURI] finds under its key what was there before. *)
Theorem capture_key_is_lookup_key (env env2 : Env) (e e2 : option error)
    (r r2 : Request) (wd : World) (res : Response) :
  Method r = MethodGet →
  freshEntry (nowLookup env) (RequestURI r) wd = None →
  upstream env wd r = inl res →
  readable (ResBody res) →
  Method r2 = MethodGet →
  nowLookup env2 <= nowCapture env + ttl (c wd) →
  let first := handler env (newResponseWriter e) r wd in
  let second := handler env2 (newResponseWriter e2) r2 first.2 in
  RequestURI (ResRequest res) = RequestURI r ∧
  (∀ k, data (c first.2) !! k =
        if decide (RequestURI r = k) then Some (captured (nowCapture env) res)
        else data (c wd) !! k) ∧
  (∀ now wd' k,
     data (c (runHook missedCacheHook now res wd').2) !! k =
       if decide (RequestURI r = k) then Some (captured now res)
       else data (c wd') !! k) ∧
  (if decide (RequestURI r2 = RequestURI r)
   then wStatus second.1 = Some (StatusCode res) ∧
        wBody second.1 = pending (ResBody res) ∧
        roundTrips (events second.2) = roundTrips (events first.2)
   else freshEntry (nowLookup env2) (RequestURI r2) first.2 =
        freshEntry (nowLookup env2) (RequestURI r2) wd).
Proof.
  intros Hm Hmiss Hup Hr Hm2 Hnow. cbv zeta.
  assert (RequestURI (ResRequest res) = RequestURI r ∧
          Method (ResRequest res) = MethodGet) as [Hk Hmr].
  { unfold upstream in Hup. destruct (transport env _); [|done].
    by injection Hup as <-. }
  split; [done|].
  set (d := captured (nowCapture env) res).
  assert (handler env (newResponseWriter e) r wd =
            (relay (tagged XCacheMiss res) (newResponseWriter e),
             stored (RequestURI r) d
               [EvRoundTrip (outreq (missed wd) r); EvLock; EvUnlock] (missed wd)))
    as ->.
  { rewrite handler_miss by done. by apply ServeHTTP_hook_capture. }
  cbn [fst snd]. set (wd1 := stored _ _ _ _).
  split; [intros k; apply lookup_insert|]. split.
  - intros now wd' k. unfold runHook. rewrite Hmr. simpl. run_M.
    rewrite saveCacheData_ok by done. run_M. rewrite Hk. apply lookup_insert.
  - case_decide as Hk2.
    + assert (freshEntry (nowLookup env2) (RequestURI r2) wd1 = Some d) as Hf.
      { unfold freshEntry. rewrite Hk2. unfold wd1 at 1. simpl.
        rewrite lookup_insert_eq.
        apply (isCacheStale_false _ (age d)) in Hnow. by rewrite Hnow. }
      rewrite (handler_hit _ _ _ _ d), writeToResponseCacheHit_eq by done.
      cbn [fst snd]. do 2 (split; [done|]).
      cbn [addEvents events newResponseWriter wErr]. rewrite !roundTrips_app.
      destruct e2; unfold roundTrips; simpl; lia.
    + unfold freshEntry, wd1. simpl. by rewrite lookup_insert_ne.
Qed.

Lemma capture_key_is_lookup_key_witness :
  let r := sampleRequest "GET" "/products/1?select=title" in
  let r2 := {| Method := "GET"; RequestURI := "/products/1?select=title";
               ReqURL := {| Scheme := "http"; Host := "elsewhere.example";
                            Path := "/other"; RawQuery := "" |};
               ReqHost := "elsewhere.example";
               ReqHeader := {["Accept-Language" := ["cs"]]} |} in
  let wd := initial hour in
  let res0 := sampleResponse sampleHeader (sampleBody "{}" None None) in
  let env := sampleEnv res0 0 5 in
  let env2 := sampleEnv (sampleResponse ∅ (sampleBody "never" None None)) 10 10 in
  let res := withRequest (outreq wd r) res0 in
  let first := handler env (newResponseWriter None) r wd in
  let second := handler env2 (newResponseWriter None) r2 first.2 in
  Method r = MethodGet ∧
  freshEntry (nowLookup env) (RequestURI r) wd = None ∧
  upstream env wd r = inl res ∧
  readable (ResBody res) ∧
  Method r2 = MethodGet ∧
  nowLookup env2 <= nowCapture env + ttl (c wd) ∧
  data (c first.2) !! "/products/1?select=title" = Some (captured 5 res) ∧
  wBody second.1 = bytes "{}".
Proof.
  intros r r2 wd res0 env env2 res first second.
  assert (Method r = MethodGet) as Hm by reflexivity.
  assert (freshEntry (nowLookup env) (RequestURI r) wd = None) as Hmiss by reflexivity.
  assert (upstream env wd r = inl res) as Hup by reflexivity.
  assert (readable (ResBody res)) as Hr by (split; reflexivity).
  assert (Method r2 = MethodGet) as Hm2 by reflexivity.
  assert (nowLookup env2 <= nowCapture env + ttl (c wd)) as Hnow
    by (simpl; unfold hour; lia).
  do 6 (split; [assumption|]).
  pose proof (capture_key_is_lookup_key env env2 None None r r2 wd res
                Hm Hmiss Hup Hr Hm2 Hnow) as H.
  cbv zeta in H. destruct H as (_ & Hk & _ & Hsecond).
  split; [apply (Hk "/products/1?select=title")|].
  apply Hsecond.
Defined.

(** ** C3: hit or forward *)

(** C3: for every GET request, when the lookup finds an entry for the
    request's key and the entry is not stale, the stored status, the
    stored headers (each key with its values in their stored order) and
    the stored body are written to the response together with
    [X-Cache: HIT], and the forwarder is not invoked; when no entry is
    found, or the entry found is stale, the request goes to the forwarder,
    once, with the capture hook installed. *)
Theorem handler_GET_hit_or_forward (env : Env) (e : option error) (r : Request)
    (wd : World) :
  Method r = MethodGet →
  parsedCache wd →
  let out := handler env (newResponseWriter e) r wd in
  match freshEntry (nowLookup env) (RequestURI r) wd with
  | Some d =>
      wStatus out.1 = Some (status d) ∧
      wHeader out.1 = <["X-Cache" := [XCacheHit]]> (header d) ∧
      wBody out.1 = body d ∧
      out.2 = addEvents ([EvRLock; EvRUnlock] ++ writeLog e) wd ∧
      roundTrips (events out.2) = roundTrips (events wd)
  | None =>
      out = ServeHTTP env (newResponseWriter e) r (missed wd) ∧
      ModifyResponse (rp (missed wd)) = Some missedCacheHook ∧
      ModifyResponse (rp out.2) = Some missedCacheHook ∧
      roundTrips (events out.2) = S (roundTrips (events wd))
  end.
Proof.
  intros Hm Hp. simpl.
  destruct (freshEntry (nowLookup env) (RequestURI r) wd) as [d|] eqn:Hf.
  - rewrite (handler_hit _ _ _ _ d), writeToResponseCacheHit_eq by done.
    cbn [fst snd]. rewrite addEvents_addEvents.
    assert (Hdr.parsed (header d)) as Hd.
    { unfold freshEntry in Hf.
      destruct (data (c wd) !! RequestURI r) as [d'|] eqn:E; [|done].
      destruct (isCacheStale _ _ _); [done|]. injection Hf as <-. by eapply Hp. }
    split; [done|]. split; [by apply hitWriter_header|]. split; [done|].
    split; [done|]. cbn [addEvents events]. rewrite roundTrips_app. by destruct e.
  - rewrite handler_miss by done. split; [done|]. split; [done|].
    destruct (ServeHTTP_frame env (newResponseWriter e) r (missed wd))
      as (evs & -> & Hevs & ->).
    split; [done|]. simpl.
    rewrite !roundTrips_app. unfold roundTrips at 2 3. simpl.
    fold (roundTrips evs). rewrite Hevs. lia.
Qed.

Lemma handler_GET_hit_or_forward_witness :
  let r := sampleRequest "GET" "/products/1" in
  let res := sampleResponse sampleHeader (sampleBody "{}" None None) in
  let wd := (handler (sampleEnv res 0 5) (newResponseWriter None) r (initial hour)).2 in
  let out := handler (sampleEnv res 10 10) (newResponseWriter None) r wd in
  Method r = MethodGet ∧
  parsedCache wd ∧
  wHeader out.1 = <["X-Cache" := ["HIT"]]> sampleHeader ∧
  roundTrips (events out.2) = 1%nat.
Proof.
  intros r res wd out.
  assert (Method r = MethodGet) as Hm by reflexivity.
  assert (parsedCache wd) as Hp.
  { apply (run_parsedCache [Serve (sampleEnv res 0 5) None r] hour).
    constructor; [|constructor]. intros req res' [= <-].
    apply sampleHeader_parsed. }
  split; [exact Hm|]. split; [exact Hp|].
  pose proof (handler_GET_hit_or_forward (sampleEnv res 10 10) None r wd Hm Hp) as H.
  split; apply H.
Defined.

(** ** C4: freshness *)

(** C4, as the code has it: for every entry and every observation time
    [now], the entry is treated as fresh exactly when
    [now <= createdAt + ttl] and as stale exactly when
    [createdAt + ttl < now]; in particular, at the instant
    [now = createdAt + ttl] the entry is still fresh. *)
Theorem fresh_iff_not_after (now ttl : Z) (d : cacheData) :
  (fresh now d ttl = true ↔ now <= age d + ttl) ∧
  (isCacheStale now (age d) ttl = true ↔ age d + ttl < now) ∧
  fresh (age d + ttl) d ttl = true.
Proof.
  unfold fresh. rewrite !negb_true_iff, !isCacheStale_false, isCacheStale_true.
  repeat split; auto; lia.
Qed.

(** C4, as stated, fails at the boundary: an entry created at 0 with a
    [ttl] of 3600 is, at [now = 3600], not stale, although [now <
    createdAt + ttl] does not hold. *)
Lemma fresh_at_boundary_counterexample :
  let d := {| header := ∅; body := []; age := 0; status := 200 |} in
  let ttl := 3600 in
  let now := age d + ttl in
  isCacheStale now (age d) ttl = false ∧ fresh now d ttl = true ∧ ¬ now < age d + ttl.
Proof. simpl. repeat split. lia. Qed.

(** ** C5: the cleanup pass *)

Lemma reports_no_lock (nowAt : string → Z) (ttl0 : Z) (entries : list (string * cacheData)) :
  List.filter isLock (reports nowAt ttl0 entries) = [].
Proof.
  unfold reports. induction (List.filter (staleAt nowAt ttl0) entries); simpl; done.
Qed.

(** C5: one cleanup pass takes the exclusive lock once, examines every
    entry, deletes each entry whose [createdAt + ttl] lies before the
    clock reading at which it is examined and no other, and reports each
    removal. With [start] and [finish] bounding the clock readings of the
    pass, every entry with [createdAt + ttl < start], that is every entry
    stale when the pass began, is gone afterwards, and no entry with
    [createdAt + ttl >= finish] is deleted; for a pass at one instant
    [now] these are the two halves of the claim. *)
Theorem cleanup_removes_stale (nowAt : string → Z) (ttl0 : Z) (wd : World)
    (start finish : Z) :
  (∀ k, start <= nowAt k <= finish) →
  let wd' := (cleanup nowAt ttl0 wd).2 in
  (∀ k, data (c wd') !! k =
        match data (c wd) !! k with
        | Some d => if isCacheStale (nowAt k) (age d) ttl0 then None else Some d
        | None => None
        end) ∧
  (∀ k d, data (c wd) !! k = Some d → age d + ttl0 < start →
          data (c wd') !! k = None) ∧
  (∀ k d, data (c wd) !! k = Some d → age d + ttl0 >= finish →
          data (c wd') !! k = Some d) ∧
  events wd' =
    events wd ++ EvLock :: reports nowAt ttl0 (map_to_list (data (c wd)))
      ++ [EvLog "cache cleanup completed"; EvUnlock] ∧
  lockAcquisitions (EvLock :: reports nowAt ttl0 (map_to_list (data (c wd)))
                      ++ [EvLog "cache cleanup completed"; EvUnlock]) = 1%nat.
Proof.
  intros Hclock. simpl. rewrite cleanup_eq. simpl.
  assert (∀ k, swept nowAt ttl0 (map_to_list (data (c wd))) (data (c wd)) !! k =
               match data (c wd) !! k with
               | Some d => if isCacheStale (nowAt k) (age d) ttl0 then None else Some d
               | None => None
               end) as Hl by apply swept_all_lookup.
  split; [done|]. split; [|split; [|split; [done|]]].
  - intros k d Hk Hs. rewrite Hl, Hk.
    destruct (Hclock k). rewrite (proj2 (isCacheStale_true _ _ _)); [done|lia].
  - intros k d Hk Hs. rewrite Hl, Hk.
    destruct (isCacheStale (nowAt k) (age d) ttl0) eqn:E; [|done].
    apply isCacheStale_true in E. destruct (Hclock k). lia.
  - unfold lockAcquisitions. simpl.
    by rewrite List.filter_app, reports_no_lock.
Qed.

Lemma cleanup_removes_stale_witness :
  let wd := (Store "/new" (sampleEntry "new" hour)
               (Store "/old" (sampleEntry "old" 0) (initial hour)).2).2 in
  let now := hour + 5 in
  let wd' := (cleanup (λ _, now) hour wd).2 in
  (∀ k : string, now <= (λ _ : string, now) k <= now) ∧
  data (c wd') !! "/old" = None ∧
  data (c wd') !! "/new" = Some (sampleEntry "new" hour).
Proof.
  intros wd now wd'.
  assert (∀ k : string, now <= (λ _ : string, now) k <= now) as Hclock
    by (intros k; simpl; lia).
  destruct (cleanup_removes_stale (λ _, now) hour wd now now Hclock)
    as (_ & Hgone & Hkept & _).
  split; [exact Hclock|]. split.
  - apply (Hgone "/old" (sampleEntry "old" 0)); [reflexivity|].
    unfold now, hour. simpl. lia.
  - apply (Hkept "/new" (sampleEntry "new" hour)); [reflexivity|].
    unfold now, hour. simpl. lia.
Defined.

(** ** C6: a failed capture *)



(** ** C7: other methods bypass the cache *)

(** C7: for every request whose method is not GET, whatever the cache
    holds (also for the same resource identifier), the handler takes no
    lock and performs no lookup, the capture hook, where installed,
    returns at once without storing, and the cache is the same before
    and after the request; the request is forwarded. *)
Theorem handler_nonGET_bypasses_cache (env : Env) (w : ResponseWriter)
    (r : Request) (wd : World) :
  Method r ≠ MethodGet →
  let out := handler env w r wd in
  c out.2 = c wd ∧
  rp out.2 = rp wd ∧
  (∃ evs, events out.2 = events wd ++ evs
          ∧ existsb isCacheAccess evs = false
          ∧ roundTrips evs = 1%nat) ∧
  (∀ now res wd', upstream env wd r = inl res →
     runHook missedCacheHook now res wd' = ((res, None), wd')).
Proof.
  intros Hm. simpl. rewrite handler_other by done.
  assert (∀ now res wd', upstream env wd r = inl res →
            runHook missedCacheHook now res wd' = ((res, None), wd')) as Hhook.
  { intros now res wd' Hup. unfold upstream in Hup.
    destruct (transport env _); [|done]. injection Hup as <-.
    unfold runHook. simpl. apply String.eqb_neq in Hm. by rewrite Hm. }
  destruct (upstream env wd r) as [res|e] eqn:Hup.
  - assert (ServeHTTP env w r wd =
              (relay res w,
               addEvents (EvRoundTrip (outreq wd r) :: copyAbort (ResBody res)) wd))
      as ->.
    { destruct (ModifyResponse (rp wd)) as [[]|] eqn:Hh.
      - by apply ServeHTTP_hook_other.
      - by apply ServeHTTP_no_hook. }
    repeat split; [|done]. eexists. split; [done|]. split.
    + apply (copyAbort_no_cache_access (ResBody res)).
    + unfold roundTrips. simpl. f_equal. apply roundTrips_copyAbort.
  - erewrite ServeHTTP_unreachable by done.
    repeat split; [by eexists|done].
Qed.

Lemma handler_nonGET_bypasses_cache_witness :
  let get := sampleRequest "GET" "/products/1" in
  let post := sampleRequest "POST" "/products/1" in
  let res := sampleResponse sampleHeader (sampleBody "{}" None None) in
  let wd := (handler (sampleEnv res 0 5) (newResponseWriter None) get (initial hour)).2 in
  let out := handler (sampleEnv res 10 10) (newResponseWriter None) post wd in
  Method post ≠ MethodGet ∧
  is_Some (data (c wd) !! RequestURI post) ∧
  c out.2 = c wd.
Proof.
  intros get post res wd out.
  assert (Method post ≠ MethodGet) as Hm by discriminate.
  split; [exact Hm|]. split; [by eexists|].
  apply (handler_nonGET_bypasses_cache (sampleEnv res 10 10) (newResponseWriter None) post wd Hm).
Defined.

(** ** C8: store *)

(** C8: the store of a capture, [c.data[key] = cacheData{...}] in
    [saveCacheData], inserts the entry when the key is absent and replaces
    the whole entry when it is present: whatever the cache held, the entry
    at the key afterwards is exactly the new one, with the header set,
    body, status and clock reading of this capture and nothing of an
    earlier entry; every other key is left alone; the number of entries
    grows by one for a new key and not at all for a key already present;
    and after every sequence of operations the cache holds no more entries
    than there are different keys that were asked for. *)
Theorem store_overwrites (now : Z) (res : Response) (x : string) (wd : World)
    (ops : list op) (ttl0 : Z) :
  readable (ResBody res) →
  let key := RequestURI (ResRequest res) in
  let wd' := (saveCacheData now res x wd).2 in
  data (c wd') !! key =
    Some {| header := ResHeader res;
            body := pending (ResBody res);
            age := now;
            status := StatusCode res |} ∧
  (∀ k, data (c wd') !! k =
        if decide (key = k) then Some (captured now res) else data (c wd) !! k) ∧
  size (data (c wd')) =
    match data (c wd) !! key with
    | Some _ => size (data (c wd))
    | None => S (size (data (c wd)))
    end ∧
  (size (data (c (run ops (initial ttl0))))
   ≤ size (list_to_set (keysOfGETs ops) : gset string))%nat.
Proof.
  intros Hr. cbv zeta. rewrite saveCacheData_ok by done. simpl.
  split; [apply lookup_insert_eq|].
  split; [intros k; apply lookup_insert|]. split.
  - rewrite map_size_insert. by destruct (data (c wd) !! _).
  - rewrite <- (size_dom (D := gset string)). apply subseteq_size.
    intros k Hk. apply elem_of_dom in Hk.
    apply run_keys in Hk as [[? Hk]|Hk]; [done|].
    by apply elem_of_list_to_set.
Qed.

Lemma store_overwrites_witness :
  let res := {| StatusCode := 404; ResHeader := {["Content-Length" := ["0"]]};
                ResBody := sampleBody "" None None;
                ResRequest := sampleRequest "GET" "/products/1" |} in
  let wd' := (saveCacheData (hour + 2) res XCacheMiss staleWorld).2 in
  readable (ResBody res) ∧
  data (c staleWorld) !! "/products/1" = Some (sampleEntry "old" 0) ∧
  data (c wd') !! "/products/1" =
    Some {| header := {["Content-Length" := ["0"]]}; body := [];
            age := hour + 2; status := 404 |} ∧
  size (data (c wd')) = 1%nat.
Proof.
  intros res wd'.
  assert (readable (ResBody res)) as Hr by (split; reflexivity).
  split; [exact Hr|]. split; [reflexivity|].
  pose proof (store_overwrites (hour + 2) res XCacheMiss staleWorld [] hour Hr) as H.
  cbv zeta in H. destruct H as (Hk & _ & Hsz & _).
  split; [exact Hk|]. exact Hsz.
Defined.

(** ** C9: the captured body *)

(** C9: during a successful capture the whole response body is read, the
    stored entry's body is exactly the bytes read, and the response's body
    is replaced by a fresh stream over those bytes, which reads to its end
    and closes without error, so that the client of the missed GET
    receives the byte sequence the upstream produced. *)
Theorem capture_keeps_body (env : Env) (e : option error) (r : Request)
    (wd : World) (res : Response) :
  Method r = MethodGet →
  freshEntry (nowLookup env) (RequestURI r) wd = None →
  upstream env wd r = inl res →
  readable (ResBody res) →
  let sv := saveCacheData (nowCapture env) res XCacheMiss (missed wd) in
  let out := handler env (newResponseWriter e) r wd in
  sv.1.2 = None ∧
  body <$> data (c sv.2) !! RequestURI r = Some (pending (ResBody res)) ∧
  ResBody sv.1.1 = io.NopCloser (pending (ResBody res)) ∧
  (io.ReadAll (ResBody sv.1.1)).1 = (pending (ResBody res), None) ∧
  io.Close (ResBody sv.1.1) = None ∧
  body <$> data (c out.2) !! RequestURI r = Some (pending (ResBody res)) ∧
  wBody out.1 = pending (ResBody res).
Proof.
  intros Hm Hf Hup Hr. simpl.
  assert (RequestURI (ResRequest res) = RequestURI r) as Hk.
  { unfold upstream in Hup. destruct (transport env _); [|done].
    by injection Hup as <-. }
  rewrite saveCacheData_ok, Hk by done. simpl.
  rewrite lookup_insert_eq. do 5 (split; [done|]).
  rewrite handler_miss by done.
  erewrite ServeHTTP_hook_capture by done. simpl.
  by rewrite lookup_insert_eq.
Qed.

Lemma capture_keeps_body_witness :
  let r := sampleRequest "GET" "/products/1" in
  let res0 := sampleResponse sampleHeader (sampleBody "{}" None None) in
  let env := sampleEnv res0 0 5 in
  let wd := initial hour in
  let out := handler env (newResponseWriter None) r wd in
  Method r = MethodGet ∧
  freshEntry (nowLookup env) (RequestURI r) wd = None ∧
  upstream env wd r = inl (withRequest (outreq wd r) res0) ∧
  readable (ResBody res0) ∧
  body <$> data (c out.2) !! "/products/1" = Some (bytes "{}") ∧
  wBody out.1 = bytes "{}".
Proof.
  intros r res0 env wd out.
  assert (Method r = MethodGet) as Hm by reflexivity.
  assert (freshEntry (nowLookup env) (RequestURI r) wd = None) as Hf by reflexivity.
  assert (upstream env wd r = inl (withRequest (outreq wd r) res0)) as Hup by reflexivity.
  assert (readable (ResBody (withRequest (outreq wd r) res0))) as Hr by (split; reflexivity).
  do 4 (split; [done|]).
  pose proof (capture_keeps_body env None r wd _ Hm Hf Hup Hr) as H.
  split; apply H.
Defined.

(** ** C10: the tag and the snapshot *)

(** C10, as stated, fails where the upstream itself sends an [X-Cache]
    header (a caching proxy upstream, for one): the snapshot is the header
    set as received, so it holds that header. *)
Lemma snapshot_with_tag_counterexample :
  let r := sampleRequest "GET" "/products/1" in
  let res0 := sampleResponse {["X-Cache" := ["MISS"]]} (sampleBody "{}" None None) in
  let wd := (handler (sampleEnv res0 0 5) (newResponseWriter None) r (initial hour)).2 in
  ∃ d, data (c wd) !! "/products/1" = Some d ∧ header d !! "X-Cache" = Some ["MISS"].
Proof. simpl. eexists. split; reflexivity. Qed.

(** C10, as the code has it: the snapshot a successful capture stores is
    exactly the header set the response had when the capture began, taken
    before the capture's own [X-Cache] value is appended to the live
    response; so the tag the capture adds is never in the snapshot, which
    holds an [X-Cache] header only where the upstream sent one. A
    cache-hit response carries, whatever the snapshot holds, exactly one
    [X-Cache] header, with the single value HIT (set, not appended, after
    the cached headers are copied): no other spelling of the key is
    present. *)
Theorem snapshot_excludes_own_tag (now : Z) (res : Response) (x : string)
    (wd wd0 : World) (e : option error) (d : cacheData) :
  readable (ResBody res) →
  let sv := saveCacheData now res x wd in
  let hit := writeToResponseCacheHit (newResponseWriter e) d wd0 in
  header <$> data (c sv.2) !! RequestURI (ResRequest res) = Some (ResHeader res) ∧
  ResHeader sv.1.1 =
    <["X-Cache" := default [] (ResHeader res !! "X-Cache") ++ [x]]> (ResHeader res) ∧
  wHeader hit.1 !! "X-Cache" = Some [XCacheHit] ∧
  (∀ k, Hdr.canon k = "X-Cache" →
        wHeader hit.1 !! k = if decide (k = "X-Cache") then Some [XCacheHit] else None).
Proof.
  intros Hr. cbv zeta. rewrite saveCacheData_ok, writeToResponseCacheHit_eq by done.
  cbn [fst snd]. split; [|split; [done|]].
  { simpl. by rewrite lookup_insert_eq. }
  unfold hitWriter, Hdr.Set_. cbn [wHeader newResponseWriter].
  rewrite canon_X_Cache. split; [apply lookup_insert_eq|].
  intros k Hk. case_decide as Hd; [subst k; apply lookup_insert_eq|].
  rewrite lookup_insert_ne by done.
  destruct (addAll (map_to_list (header d)) ∅ !! k) as [vv|] eqn:E; [|done].
  exfalso. apply Hd. rewrite <- Hk. symmetry.
  apply (addAll_keys (map_to_list (header d)) ∅); [|by rewrite E].
  intros k'. rewrite lookup_empty. by intros [? ?].
Qed.

Lemma snapshot_excludes_own_tag_witness :
  let res := sampleResponse sampleHeader (sampleBody "{}" None None) in
  let sv := saveCacheData 5 res XCacheMiss (initial hour) in
  let hit := writeToResponseCacheHit (newResponseWriter None)
               (sampleEntry "{}" 5) (initial hour) in
  readable (ResBody res) ∧
  header <$> data (c sv.2) !! "" = Some sampleHeader ∧
  ResHeader sv.1.1 !! "X-Cache" = Some ["MISS"] ∧
  wHeader hit.1 !! "X-Cache" = Some ["HIT"].
Proof.
  intros res sv hit.
  assert (readable (ResBody res)) as Hr by (split; reflexivity).
  split; [exact Hr|].
  pose proof (snapshot_excludes_own_tag 5 res XCacheMiss (initial hour) (initial hour)
                None (sampleEntry "{}" 5) Hr) as H.
  cbv zeta in H. destruct H as (Hsnap & Hlive & Hhit & _).
  split; [exact Hsnap|]. split; [|exact Hhit].
  unfold sv. rewrite Hlive. reflexivity.
Defined.

(** * Further properties of the code *)

(** ** Missed requests *)

Lemma cacheHit_GET env r wd :
  Method r = MethodGet → cacheHit env r wd = freshEntry (nowLookup env) (RequestURI r) wd.
Proof. intros Hm. unfold cacheHit. by rewrite Hm. Qed.

Lemma cacheHit_other env r wd :
  Method r ≠ MethodGet → cacheHit env r wd = None.
Proof. intros Hm. unfold cacheHit. apply String.eqb_neq in Hm. by rewrite Hm. Qed.

Lemma freshEntry_stale (now : Z) (key : string) (wd : World) (d : cacheData) :
  data (c wd) !! key = Some d → age d + ttl (c wd) < now →
  freshEntry now key wd = None.
Proof.
  intros Hd Hs. unfold freshEntry. rewrite Hd.
  apply isCacheStale_true in Hs. by rewrite Hs.
Qed.

(** X1: a GET that finds a stale entry goes upstream; when the capture
    succeeds the client receives the new upstream status, headers and
    body with one more [X-Cache] value, MISS, and the stale entry is
    replaced whole by the new capture, stamped with the capture's clock
    reading, while every other key keeps its entry. *)
Theorem stale_GET_is_recaptured (env : Env) (e : option error) (r : Request)
    (wd : World) (d : cacheData) (res : Response) :
  Method r = MethodGet →
  data (c wd) !! RequestURI r = Some d →
  age d + ttl (c wd) < nowLookup env →
  upstream env wd r = inl res →
  readable (ResBody res) →
  Hdr.parsed (ResHeader res) →
  let out := handler env (newResponseWriter e) r wd in
  (∀ k, data (c out.2) !! k =
        if decide (RequestURI r = k) then Some (captured (nowCapture env) res)
        else data (c wd) !! k) ∧
  age <$> data (c out.2) !! RequestURI r = Some (nowCapture env) ∧
  wStatus out.1 = Some (StatusCode res) ∧
  wHeader out.1 =
    <["X-Cache" := default [] (ResHeader res !! "X-Cache") ++ [XCacheMiss]]>
      (ResHeader res) ∧
  wBody out.1 = pending (ResBody res) ∧
  roundTrips (events out.2) = S (roundTrips (events wd)).
Proof.
  intros Hm Hd Hs Hup Hr Hp. cbv zeta.
  rewrite handler_miss by eauto using freshEntry_stale.
  erewrite ServeHTTP_hook_capture by done. cbn [fst snd].
  rewrite relay_tagged_header by done.
  split; [intros k; apply lookup_insert|].
  split; [simpl; by rewrite lookup_insert_eq|].
  do 3 (split; [done|]).
  simpl. rewrite <- app_assoc, roundTrips_app. unfold roundTrips at 2. simpl. lia.
Qed.

Lemma stale_GET_is_recaptured_witness :
  let r := sampleRequest "GET" "/products/1" in
  let res0 := sampleResponse sampleHeader (sampleBody "new" None None) in
  let env := sampleEnv res0 (hour + 1) (hour + 2) in
  let res := withRequest (outreq staleWorld r) res0 in
  let out := handler env (newResponseWriter None) r staleWorld in
  Method r = MethodGet ∧
  data (c staleWorld) !! RequestURI r = Some (sampleEntry "old" 0) ∧
  age (sampleEntry "old" 0) + ttl (c staleWorld) < nowLookup env ∧
  upstream env staleWorld r = inl res ∧
  readable (ResBody res) ∧
  Hdr.parsed (ResHeader res) ∧
  body <$> data (c out.2) !! "/products/1" = Some (bytes "new") ∧
  wBody out.1 = bytes "new".
Proof.
  intros r res0 env res out.
  assert (Method r = MethodGet) as Hm by reflexivity.
  assert (data (c staleWorld) !! RequestURI r = Some (sampleEntry "old" 0)) as Hd
    by reflexivity.
  assert (age (sampleEntry "old" 0) + ttl (c staleWorld) < nowLookup env) as Hs
    by (simpl; unfold hour; lia).
  assert (upstream env staleWorld r = inl res) as Hup by reflexivity.
  assert (readable (ResBody res)) as Hr by (split; reflexivity).
  assert (Hdr.parsed (ResHeader res)) as Hp by exact sampleHeader_parsed.
  do 6 (split; [assumption|]).
  pose proof (stale_GET_is_recaptured env None r staleWorld _ res Hm Hd Hs Hup Hr Hp) as H.
  cbv zeta in H. destruct H as (Hk & _ & _ & _ & Hb & _).
  split; [|exact Hb].
  fold out in Hk. rewrite (Hk "/products/1"). reflexivity.
Defined.

(** X2: when the upstream cannot be reached, a request that is not served
    from the cache (any method other than GET, or a GET without a fresh
    entry) is answered 502 with no header and no body; the proxy went
    upstream once, and the cache keeps exactly what it held, a stale entry
    for the same key included. *)
Theorem unreachable_upstream_502 (env : Env) (e : option error) (r : Request)
    (wd : World) (err : error) :
  cacheHit env r wd = None →
  upstream env wd r = inr err →
  let out := handler env (newResponseWriter e) r wd in
  wStatus out.1 = Some StatusBadGateway ∧
  wHeader out.1 = ∅ ∧
  wBody out.1 = [] ∧
  c out.2 = c wd ∧
  roundTrips (events out.2) = S (roundTrips (events wd)) ∧
  last (events out.2) = Some (EvLog ("http: proxy error: " +:+ Error err)).
Proof.
  intros Hh Hup. cbv zeta.
  destruct (decide (Method r = MethodGet)) as [Hm|Hm].
  - rewrite cacheHit_GET in Hh by done. rewrite handler_miss by done.
    erewrite ServeHTTP_unreachable by done. cbn [fst snd].
    do 4 (split; [done|]). simpl. rewrite <- app_assoc. split.
    + rewrite roundTrips_app. unfold roundTrips at 2. simpl. lia.
    + by rewrite last_app.
  - rewrite handler_other by done.
    erewrite ServeHTTP_unreachable by done. cbn [fst snd].
    do 4 (split; [done|]). simpl. split.
    + rewrite roundTrips_app. unfold roundTrips at 2. simpl. lia.
    + by rewrite last_app.
Qed.

Lemma unreachable_upstream_502_witness :
  let r := sampleRequest "GET" "/products/1" in
  let env := {| transport := λ _, inr (Err "dial tcp: connection refused");
                nowLookup := hour + 1; nowCapture := hour + 2 |} in
  let out := handler env (newResponseWriter None) r staleWorld in
  cacheHit env r staleWorld = None ∧
  upstream env staleWorld r = inr (Err "dial tcp: connection refused") ∧
  wStatus out.1 = Some 502 ∧
  data (c out.2) !! "/products/1" = Some (sampleEntry "old" 0).
Proof.
  intros r env out.
  assert (cacheHit env r staleWorld = None) as Hh by reflexivity.
  assert (upstream env staleWorld r = inr (Err "dial tcp: connection refused")) as Hup
    by reflexivity.
  do 2 (split; [assumption|]).
  pose proof (unreachable_upstream_502 env None r staleWorld _ Hh Hup) as H.
  cbv zeta in H. destruct H as (Hs & _ & _ & Hc & _).
  split; [exact Hs|]. fold out in Hc. rewrite Hc. reflexivity.
Defined.

(** ** Other methods *)

Lemma relay_parsed_header (e : option error) (res : Response) :
  Hdr.parsed (ResHeader res) →
  wHeader (relay res (newResponseWriter e)) = ResHeader res.
Proof. intros Hp. unfold relay. simpl. by apply addAll_parsed. Qed.

(** X3: the response to a request whose method is not GET passes through
    untouched: the client receives the upstream status, exactly the
    upstream header set (no [X-Cache] value is added) and the upstream
    body, whether or not an earlier GET has installed the capture hook. *)
Theorem nonGET_passes_through (env : Env) (e : option error) (r : Request)
    (wd : World) (res : Response) :
  Method r ≠ MethodGet →
  upstream env wd r = inl res →
  Hdr.parsed (ResHeader res) →
  let out := handler env (newResponseWriter e) r wd in
  wStatus out.1 = Some (StatusCode res) ∧
  wHeader out.1 = ResHeader res ∧
  wHeader out.1 !! "X-Cache" = ResHeader res !! "X-Cache" ∧
  wBody out.1 = pending (ResBody res).
Proof.
  intros Hm Hup Hp. cbv zeta. rewrite handler_other by done.
  assert (ServeHTTP env (newResponseWriter e) r wd =
            (relay res (newResponseWriter e),
             addEvents (EvRoundTrip (outreq wd r) :: copyAbort (ResBody res)) wd))
    as ->.
  { destruct (ModifyResponse (rp wd)) as [[]|] eqn:Hh.
    - by apply ServeHTTP_hook_other.
    - by apply ServeHTTP_no_hook. }
  cbn [fst snd]. rewrite relay_parsed_header by done. done.
Qed.

Lemma nonGET_passes_through_witness :
  let get := sampleRequest "GET" "/products/1" in
  let post := sampleRequest "POST" "/products/1" in
  let res0 := sampleResponse sampleHeader (sampleBody "created" None None) in
  let env := sampleEnv res0 10 10 in
  let wd := (handler env (newResponseWriter None) get (initial hour)).2 in
  let res := withRequest (outreq wd post) res0 in
  let out := handler env (newResponseWriter None) post wd in
  Method post ≠ MethodGet ∧
  upstream env wd post = inl res ∧
  Hdr.parsed (ResHeader res) ∧
  ModifyResponse (rp wd) = Some missedCacheHook ∧
  wHeader out.1 = sampleHeader ∧
  wBody out.1 = bytes "created".
Proof.
  intros get post res0 env wd res out.
  assert (Method post ≠ MethodGet) as Hm by discriminate.
  assert (upstream env wd post = inl res) as Hup by reflexivity.
  assert (Hdr.parsed (ResHeader res)) as Hp by exact sampleHeader_parsed.
  do 3 (split; [assumption|]). split; [reflexivity|].
  pose proof (nonGET_passes_through env None post wd res Hm Hup Hp) as H.
  cbv zeta in H. destruct H as (_ & Hh & _ & Hb). split; [exact Hh|exact Hb].
Defined.

(** ** A time to live of zero or less *)

(** X4: with a [ttl] of zero or less the cache never answers: a GET whose
    key holds an entry captured before the instant of the lookup is
    treated as a miss and goes upstream. *)
Theorem nonpositive_ttl_never_hits (env : Env) (e : option error) (r : Request)
    (wd : World) (d : cacheData) :
  Method r = MethodGet →
  ttl (c wd) <= 0 →
  data (c wd) !! RequestURI r = Some d →
  age d < nowLookup env →
  let out := handler env (newResponseWriter e) r wd in
  cacheHit env r wd = None ∧
  out = ServeHTTP env (newResponseWriter e) r (missed wd) ∧
  roundTrips (events out.2) = S (roundTrips (events wd)).
Proof.
  intros Hm Ht Hd Ha. cbv zeta.
  assert (freshEntry (nowLookup env) (RequestURI r) wd = None) as Hf.
  { eapply freshEntry_stale; [done|lia]. }
  rewrite cacheHit_GET, handler_miss by done. do 2 (split; [done|]).
  destruct (ServeHTTP_frame env (newResponseWriter e) r (missed wd))
    as (evs & -> & Hevs & _).
  simpl. rewrite !roundTrips_app. unfold roundTrips at 2 3. simpl.
  fold (roundTrips evs). rewrite Hevs. lia.
Qed.

Lemma nonpositive_ttl_never_hits_witness :
  let r := sampleRequest "GET" "/products/1" in
  let wd := (Store "/products/1" (sampleEntry "old" 0) (initial 0)).2 in
  let env := sampleEnv (sampleResponse sampleHeader (sampleBody "new" None None)) 1 1 in
  Method r = MethodGet ∧
  ttl (c wd) <= 0 ∧
  data (c wd) !! RequestURI r = Some (sampleEntry "old" 0) ∧
  age (sampleEntry "old" 0) < nowLookup env ∧
  cacheHit env r wd = None.
Proof.
  intros r wd env.
  assert (Method r = MethodGet) as Hm by reflexivity.
  assert (ttl (c wd) <= 0) as Ht by (simpl; lia).
  assert (data (c wd) !! RequestURI r = Some (sampleEntry "old" 0)) as Hd by reflexivity.
  assert (age (sampleEntry "old" 0) < nowLookup env) as Ha by (simpl; lia).
  do 4 (split; [assumption|]).
  apply (nonpositive_ttl_never_hits env None r wd _ Hm Ht Hd Ha).
Defined.

(** ** The configuration *)

Lemma handler_rp (env : Env) (w : ResponseWriter) (r : Request) (wd : World) :
  rp (handler env w r wd).2 =
    if missedGET env r wd
    then {| target := target (rp wd); ModifyResponse := Some missedCacheHook |}
    else rp wd.
Proof.
  unfold missedGET. destruct (decide (Method r = MethodGet)) as [Hm|Hm].
  - rewrite Hm. simpl.
    destruct (freshEntry (nowLookup env) (RequestURI r) wd) as [d|] eqn:Hf.
    + by rewrite (handler_hit _ _ _ _ d), writeToResponseCacheHit_eq.
    + rewrite handler_miss by done.
      by destruct (ServeHTTP_frame env w r (missed wd)) as (evs & _ & _ & ->).
  - rewrite handler_other by done. apply String.eqb_neq in Hm. rewrite Hm. simpl.
    by destruct (ServeHTTP_frame env w r wd) as (evs & _ & _ & ->).
Qed.

Lemma step_target (o : op) (wd : World) : target (rp (step o wd)) = target (rp wd).
Proof.
  destruct o as [env e r|nowAt]; simpl.
  - rewrite handler_rp. by destruct (missedGET env r wd).
  - unfold tick. run_M. by rewrite cleanup_eq.
Qed.

Lemma step_hook (o : op) (wd : World) :
  ModifyResponse (rp (step o wd)) =
    match o with
    | Serve env _ r =>
        if missedGET env r wd then Some missedCacheHook else ModifyResponse (rp wd)
    | Tick _ => ModifyResponse (rp wd)
    end.
Proof.
  destruct o as [env e r|nowAt]; simpl.
  - rewrite handler_rp. by destruct (missedGET env r wd).
  - unfold tick. run_M. by rewrite cleanup_eq.
Qed.

(** X5: nothing the server does changes its configuration: through every
    sequence of requests and cleanup passes the cache's [ttl] and the
    proxy's target stay what they were at start; the capture hook is
    installed by a GET that misses and by nothing else, and once installed
    it is never removed. *)
Theorem configuration_is_stable (ops : list op) (o : op) (wd : World) :
  ttl (c (run ops wd)) = ttl (c wd) ∧
  target (rp (run ops wd)) = target (rp wd) ∧
  ModifyResponse (rp (step o wd)) =
    match o with
    | Serve env _ r =>
        if missedGET env r wd then Some missedCacheHook else ModifyResponse (rp wd)
    | Tick _ => ModifyResponse (rp wd)
    end ∧
  match ModifyResponse (rp wd) with
  | Some h => ModifyResponse (rp (run ops wd)) = Some h
  | None => True
  end.
Proof.
  split; [apply run_ttl|]. split; [|split; [apply step_hook|]].
  - induction ops as [|o' ops IH] using rev_ind; [done|].
    by rewrite run_snoc, step_target.
  - destruct (ModifyResponse (rp wd)) as [[]|] eqn:Hh; [|done].
    induction ops as [|o' ops IH] using rev_ind; [done|].
    rewrite run_snoc, step_hook. destruct o' as [env e r|nowAt]; [|done].
    by destruct (missedGET env r (run ops wd)).
Qed.

(** ** Where entries come from *)

Lemma run_target (ops : list op) (wd : World) :
  target (rp (run ops wd)) = target (rp wd).
Proof.
  induction ops as [|o ops IH] using rev_ind; [done|].
  by rewrite run_snoc, step_target.
Qed.

Lemma step_entry (o : op) (wd : World) (k : string) (d : cacheData) :
  data (c (step o wd)) !! k = Some d →
  data (c wd) !! k = Some d ∨ capturedBy (target (rp wd)) o k d.
Proof.
  destruct o as [env e r|nowAt]; simpl.
  - destruct (handler_cache env (newResponseWriter e) r wd)
      as [->|(Hm & _ & res & Hup & Hr & ->)]; [by left|].
    simpl. rewrite lookup_insert. case_decide as Hk; [|by left].
    intros [= <-]. right. do 2 (split; [done|]).
    unfold upstream, outreq in Hup.
    destruct (transport env _) as [res0|] eqn:Ht; [|done].
    injection Hup as <-. by exists res0.
  - rewrite tick_cache. simpl. rewrite swept_all_lookup.
    destruct (data (c wd) !! k) as [d'|]; [|done].
    destruct (isCacheStale _ _ _); [done|]. by left.
Qed.

(** X6: every entry the cache of a running server holds is one complete
    capture: it sits under the [RequestURI] of a GET request that was
    served, and its status, headers and body are those of the one upstream
    response to that request, read to its end, with the capture's clock
    reading as its age. No other method, no failed capture and no cleanup
    pass ever creates or alters an entry. *)
Theorem entries_are_whole_captures (ops : list op) (ttl0 : Z) (k : string)
    (d : cacheData) :
  data (c (run ops (initial ttl0))) !! k = Some d →
  ∃ o, o ∈ ops ∧ capturedBy dummyjson o k d.
Proof.
  revert d. induction ops as [|o ops IH] using rev_ind; intros d; [done|].
  rewrite run_snoc. intros Hd. apply step_entry in Hd as [Hd|Hd].
  - destruct (IH d Hd) as (o' & Hin & Hc). exists o'. split; [|done].
    apply elem_of_app. by left.
  - rewrite run_target in Hd. exists o. split; [|done].
    apply elem_of_app. right. by apply list_elem_of_singleton.
Qed.

Lemma entries_are_whole_captures_witness :
  let r := sampleRequest "GET" "/products/1" in
  let res0 := sampleResponse sampleHeader (sampleBody "{}" None None) in
  let ops := Serve (sampleEnv res0 0 5) None r :: sampleOps in
  let d := captured 5 res0 in
  data (c (run ops (initial hour))) !! "/products/1" = Some d ∧
  ∃ o, o ∈ ops ∧ capturedBy dummyjson o "/products/1" d.
Proof.
  intros r res0 ops d.
  assert (data (c (run ops (initial hour))) !! "/products/1" = Some d) as Hd
    by reflexivity.
  split; [exact Hd|].
  exact (entries_are_whole_captures ops hour "/products/1" d Hd).
Defined.

(** ** The lock *)

Lemma lockRun_app (s : lockState) (l1 l2 : list event) :
  lockRun s (l1 ++ l2) =
    match lockRun s l1 with
    | Some s' => lockRun s' l2
    | None => None
    end.
Proof.
  revert s. induction l1 as [|e l1 IH]; intros s; simpl; [done|].
  destruct (lockStep s e); [apply IH|done].
Qed.

Lemma lockRun_reports (nowAt : string → Z) (ttl0 : Z)
    (entries : list (string * cacheData)) (s : lockState) :
  lockRun s (reports nowAt ttl0 entries) = Some s.
Proof.
  unfold reports. induction (List.filter (staleAt nowAt ttl0) entries); simpl; [done|].
  by destruct s.
Qed.

Lemma lockRun_copyAbort (b : Body) : lockRun Free (copyAbort b) = Some Free.
Proof. unfold copyAbort. by destruct (readErr b). Qed.

(** The events one operation adds: the lock is free again at their end. *)
Lemma step_segment (o : op) (wd : World) :
  ∃ seg, events (step o wd) = events wd ++ seg
         ∧ lockRun Free seg = Some Free.
Proof.
  destruct o as [env e r|nowAt]; simpl.
  - destruct (decide (Method r = MethodGet)) as [Hm|Hm].
    + destruct (freshEntry (nowLookup env) (RequestURI r) wd) as [d|] eqn:Hf.
      * rewrite (handler_hit _ _ _ _ d), writeToResponseCacheHit_eq by done.
        simpl. exists ([EvRLock; EvRUnlock] ++ writeLog e).
        rewrite app_assoc. split; [done|]. by destruct e.
      * rewrite handler_miss by done.
        assert (upstream env (missed wd) r = upstream env wd r) as Hu by done.
        destruct (upstream env wd r) as [res|err] eqn:Hup.
        -- destruct (captureErr (ResBody res)) as [err|] eqn:Hce.
           ++ erewrite ServeHTTP_hook_abandon by done. simpl.
              eexists ([EvRLock; EvRUnlock] ++ [_; _] ++ copyAbort (ResBody res)).
              rewrite app_assoc. split; [done|].
              simpl. apply lockRun_copyAbort.
           ++ apply readable_captureErr in Hce.
              erewrite ServeHTTP_hook_capture by done. simpl.
              eexists ([EvRLock; EvRUnlock] ++ [_; _; _]).
              rewrite app_assoc. by split.
        -- erewrite ServeHTTP_unreachable by done. simpl.
           eexists ([EvRLock; EvRUnlock] ++ [_; _]).
           rewrite app_assoc. by split.
    + rewrite handler_other by done.
      destruct (upstream env wd r) as [res|err] eqn:Hup.
      * assert (ServeHTTP env (newResponseWriter e) r wd =
                  (relay res (newResponseWriter e),
                   addEvents (EvRoundTrip (outreq wd r) :: copyAbort (ResBody res)) wd))
          as ->.
        { destruct (ModifyResponse (rp wd)) as [[]|] eqn:Hh.
          - by apply ServeHTTP_hook_other.
          - by apply ServeHTTP_no_hook. }
        simpl. eexists. split; [done|]. simpl. apply lockRun_copyAbort.
      * erewrite ServeHTTP_unreachable by done. simpl.
        eexists. by split.
  - unfold tick. run_M. rewrite cleanup_eq. simpl. eexists. split; [done|].
    simpl. by rewrite lockRun_app, lockRun_reports.
Qed.

(** X7: in every run of the server the lock is used in strict brackets:
    each [RLock] is followed at once by its [RUnlock], each [Lock] by its
    [Unlock] with nothing but log lines between, no lock is taken while one
    is held, no round trip upstream happens under a lock, and after every
    operation the lock is free. *)
Theorem lock_is_bracketed (ops : list op) (ttl0 : Z) :
  lockRun Free (events (run ops (initial ttl0))) = Some Free.
Proof.
  induction ops as [|o ops IH] using rev_ind; [done|].
  rewrite run_snoc.
  destruct (step_segment o (run ops (initial ttl0))) as (seg & -> & Hseg).
  by rewrite lockRun_app, IH.
Qed.

(** ** More on the cleanup pass *)

Lemma size_delete_Some (m : gmap string cacheData) (k : string) (d : cacheData) :
  m !! k = Some d → size m = S (size (delete k m)).
Proof.
  intros Hk. rewrite <- (insert_delete_id m k d Hk) at 1.
  apply map_size_insert_None, lookup_delete_eq.
Qed.

Lemma swept_size (nowAt : string → Z) (ttl0 : Z)
    (l : list (string * cacheData)) (m : gmap string cacheData) :
  NoDup l.*1 →
  (∀ k d, (k, d) ∈ l → is_Some (m !! k)) →
  (size (swept nowAt ttl0 l m) + length (List.filter (staleAt nowAt ttl0) l))%nat
  = size m.
Proof.
  unfold swept. revert m. induction l as [|[k d] l IH]; intros m Hnd Hin; simpl.
  - lia.
  - apply NoDup_cons in Hnd as [Hk Hnd].
    destruct (staleAt nowAt ttl0 (k, d)); simpl.
    + destruct (Hin k d) as [d' Hd']; [by left|].
      rewrite (size_delete_Some m k d' Hd'), <- (IH (delete k m)); [lia|done|].
      intros k' x Hx. rewrite lookup_delete_ne.
      * eapply Hin. by right.
      * intros ->. apply Hk. apply list_elem_of_fmap. by exists (k', x).
    + apply IH; [done|]. intros k' x Hx. eapply Hin. by right.
Qed.

(** X9: a cleanup pass only ever removes: the cache afterwards is a part
    of the cache before, entry for entry; the entries gone are as many as
    the removals the pass logs; and the pass changes neither the [ttl] nor
    the proxy. *)
Theorem cleanup_only_removes (nowAt : string → Z) (ttl0 : Z) (wd : World) :
  let wd' := (cleanup nowAt ttl0 wd).2 in
  let removed := reports nowAt ttl0 (map_to_list (data (c wd))) in
  data (c wd') ⊆ data (c wd) ∧
  (size (data (c wd')) + length removed)%nat = size (data (c wd)) ∧
  events wd' = events wd ++ EvLock :: removed
                 ++ [EvLog "cache cleanup completed"; EvUnlock] ∧
  ttl (c wd') = ttl (c wd) ∧
  rp wd' = rp wd.
Proof.
  cbv zeta. rewrite cleanup_eq. simpl. split; [|split; [|done]].
  - apply map_subseteq_spec. intros k d. rewrite swept_all_lookup.
    destruct (data (c wd) !! k) as [d'|]; [|done].
    by destruct (isCacheStale _ _ _).
  - unfold reports. rewrite length_fmap. apply swept_size.
    + apply NoDup_fst_map_to_list.
    + intros k d Hin. apply elem_of_map_to_list in Hin. by eexists.
Qed.

Lemma List_filter_none {A} (f : A → bool) (l : list A) :
  (∀ x, x ∈ l → f x = false) → List.filter f l = [].
Proof.
  induction l as [|x l IH]; intros Hf; simpl; [done|].
  rewrite (Hf x) by left. apply IH. intros y Hy. apply Hf. by right.
Qed.

(** X11: a cleanup pass that finds no entry stale (an empty cache
    included) leaves the state as it was, but for three events: the lock,
    the line that the cleanup is completed, and the unlock; no removal is
    logged. *)
Theorem cleanup_nothing_stale (nowAt : string → Z) (ttl0 : Z) (wd : World) :
  (∀ k d, data (c wd) !! k = Some d → nowAt k <= age d + ttl0) →
  (cleanup nowAt ttl0 wd).2 =
    addEvents [EvLock; EvLog "cache cleanup completed"; EvUnlock] wd.
Proof.
  intros Hfresh. rewrite cleanup_eq. simpl. unfold addEvents.
  assert (reports nowAt ttl0 (map_to_list (data (c wd))) = []) as ->.
  { unfold reports. rewrite List_filter_none; [done|].
    intros [k d] Hin. apply elem_of_map_to_list in Hin.
    unfold staleAt. simpl. apply isCacheStale_false. by eapply Hfresh. }
  assert (swept nowAt ttl0 (map_to_list (data (c wd))) (data (c wd)) = data (c wd)) as ->.
  { apply map_eq. intros k. rewrite swept_all_lookup.
    destruct (data (c wd) !! k) as [d|] eqn:Hd; [|done].
    by rewrite (proj2 (isCacheStale_false _ _ _) (Hfresh k d Hd)). }
  destruct wd as [[m t] p evs]. done.
Qed.

Lemma cleanup_nothing_stale_witness :
  let now := λ _ : string, hour in
  (∀ k d, data (c twoEntries) !! k = Some d → now k <= age d + hour) ∧
  c (cleanup now hour twoEntries).2 = c twoEntries.
Proof.
  intros now.
  assert (∀ k d, data (c twoEntries) !! k = Some d → now k <= age d + hour) as Hf.
  { intros k d. unfold twoEntries. simpl. unfold now.
    rewrite lookup_insert. case_decide.
    - intros [= <-]. simpl. unfold hour. lia.
    - rewrite lookup_insert. case_decide; [|done].
      intros [= <-]. simpl. unfold hour. lia. }
  split; [exact Hf|].
  by rewrite (cleanup_nothing_stale now hour twoEntries Hf).
Defined.

(** ** The order of the header range *)

(** X12: the order in which the range over the cached header map visits
    its keys (Go leaves it open) does not matter to a cache hit: for a
    header set as the transport parses it, every order of the keys gives
    the response the same headers, the cached ones with [X-Cache] set to
    HIT. *)
Theorem hit_headers_any_order (e : option error) (d : cacheData) (wd : World)
    (l : list (string * list string)) :
  Hdr.parsed (header d) →
  l ≡ₚ map_to_list (header d) →
  Hdr.Set_ "X-Cache" XCacheHit (addAll l ∅) =
    wHeader (writeToResponseCacheHit (newResponseWriter e) d wd).1 ∧
  Hdr.Set_ "X-Cache" XCacheHit (addAll l ∅) = <["X-Cache" := [XCacheHit]]> (header d).
Proof.
  intros Hp Hl. rewrite writeToResponseCacheHit_eq. cbn [fst].
  rewrite hitWriter_header by done. unfold Hdr.Set_.
  by rewrite (addAll_parsed (header d) l).
Qed.

Lemma hit_headers_any_order_witness :
  let d := sampleEntry "{}" 5 in
  let l := reverse (map_to_list (header d)) in
  Hdr.parsed (header d) ∧
  l ≡ₚ map_to_list (header d) ∧
  l ≠ map_to_list (header d) ∧
  Hdr.Set_ "X-Cache" XCacheHit (addAll l ∅) = <["X-Cache" := ["HIT"]]> sampleHeader.
Proof.
  intros d l.
  assert (Hdr.parsed (header d)) as Hp by exact sampleHeader_parsed.
  assert (l ≡ₚ map_to_list (header d)) as Hl by apply reverse_Permutation.
  split; [exact Hp|]. split; [exact Hl|]. split; [by vm_compute|].
  apply (hit_headers_any_order None d (initial hour) l Hp Hl).
Defined.

(** ** Start-up *)

Example Atoi_plain : strconv.Atoi "3" = Some 3.
Proof. reflexivity. Qed.

Example Atoi_signs : strconv.Atoi "-12" = Some (-12) ∧ strconv.Atoi "+7" = Some 7.
Proof. split; reflexivity. Qed.

Example Atoi_rejects :
  strconv.Atoi "" = None ∧ strconv.Atoi "-" = None ∧ strconv.Atoi " 3" = None ∧
  strconv.Atoi "3h" = None ∧ strconv.Atoi "1_000" = None.
Proof. repeat split; reflexivity. Qed.

Example Atoi_range :
  strconv.Atoi "9223372036854775807" = Some (2 ^ 63 - 1) ∧
  strconv.Atoi "9223372036854775808" = None ∧
  strconv.Atoi "-9223372036854775808" = Some (- 2 ^ 63).
Proof. repeat split; reflexivity. Qed.

Example getTTL_sample :
  Startup.getTTL (Startup.unconfigured ∅ (Some sampleDotenv)) =
    Startup.Done (3 * Startup.Hour)
      {| Startup.TTL := 3 * Startup.Hour; Startup.CleanUpPeriod := 0;
         Startup.environ := sampleDotenv; Startup.dotenv := Some sampleDotenv |}.
Proof. reflexivity. Qed.

Arguments strconv.Atoi : simpl never.
Arguments Startup.hoursToDuration : simpl never.

Ltac run_B :=
  repeat (unfold mbind, Startup.Boot_bind, mret, Startup.Boot_ret,
          Startup.getProcess, Startup.fatal, Startup.panic, Startup.setTTL,
          Startup.setCleanUpPeriod, Startup.Load, Startup.Getenv in *;
          simpl in * ).

Lemma getTTL_memo (p : Startup.Process) :
  Startup.TTL p ≠ 0 → Startup.getTTL p = Startup.Done (Startup.TTL p) p.
Proof.
  intros Hp. unfold Startup.getTTL. run_B.
  by destruct (Z.eqb_spec (Startup.TTL p) 0).
Qed.

Lemma getTTL_read (p : Startup.Process) :
  Startup.TTL p = 0 →
  Startup.getTTL p =
    match Startup.dotenv p with
    | None => Startup.Fatal "error loading .env file %s"
    | Some f =>
        match strconv.Atoi (default "" ((Startup.environ p ∪ f) !! "TTL")) with
        | None => Startup.Fatal "cannot convert ttl to int %s"
        | Some h =>
            Startup.Done (Startup.hoursToDuration h)
              {| Startup.TTL := Startup.hoursToDuration h;
                 Startup.CleanUpPeriod := Startup.CleanUpPeriod p;
                 Startup.environ := Startup.environ p ∪ f;
                 Startup.dotenv := Startup.dotenv p |}
        end
    end.
Proof.
  intros Hp. unfold Startup.getTTL. run_B. rewrite Hp. simpl.
  destruct (Startup.dotenv p) as [f|]; simpl; [|done].
  by destruct (strconv.Atoi _).
Qed.

Lemma getCleanUpPeriod_memo (p : Startup.Process) :
  Startup.CleanUpPeriod p ≠ 0 →
  Startup.getCleanUpPeriod p = Startup.Done (Startup.CleanUpPeriod p) p.
Proof.
  intros Hp. unfold Startup.getCleanUpPeriod. run_B.
  by destruct (Z.eqb_spec (Startup.CleanUpPeriod p) 0).
Qed.

Lemma getCleanUpPeriod_read (p : Startup.Process) :
  Startup.CleanUpPeriod p = 0 →
  Startup.getCleanUpPeriod p =
    match Startup.dotenv p with
    | None => Startup.Fatal "error loading .env file %s"
    | Some f =>
        match strconv.Atoi
                (default "" ((Startup.environ p ∪ f) !! "CLEAN_UP_PERIOD")) with
        | None => Startup.Fatal "cannot convert ttl to int %s"
        | Some h =>
            Startup.Done (Startup.hoursToDuration h)
              {| Startup.TTL := Startup.TTL p;
                 Startup.CleanUpPeriod := Startup.hoursToDuration h;
                 Startup.environ := Startup.environ p ∪ f;
                 Startup.dotenv := Startup.dotenv p |}
        end
    end.
Proof.
  intros Hp. unfold Startup.getCleanUpPeriod. run_B. rewrite Hp. simpl.
  destruct (Startup.dotenv p) as [f|]; simpl; [|done].
  by destruct (strconv.Atoi _).
Qed.

(** What a successful [getTTL] leaves behind. *)
Lemma getTTL_Done (p p' : Startup.Process) (v : Z) :
  Startup.getTTL p = Startup.Done v p' →
  Startup.TTL p' = v ∧
  Startup.CleanUpPeriod p' = Startup.CleanUpPeriod p ∧
  Startup.dotenv p' = Startup.dotenv p ∧
  (Startup.TTL p ≠ 0 ∧ p' = p ∨
   Startup.TTL p = 0 ∧ ∃ f h,
     Startup.dotenv p = Some f ∧
     Startup.environ p' = Startup.environ p ∪ f ∧
     strconv.Atoi (default "" (Startup.environ p' !! "TTL")) = Some h ∧
     v = Startup.hoursToDuration h).
Proof.
  destruct (decide (Startup.TTL p = 0)) as [Hp|Hp].
  - rewrite getTTL_read by done.
    destruct (Startup.dotenv p) as [f|] eqn:Hf; [|done].
    destruct (strconv.Atoi _) as [h|] eqn:Hh; [|done].
    intros [= <- <-]. simpl. do 3 (split; [done|]). right.
    split; [done|]. by exists f, h.
  - rewrite getTTL_memo by done. intros [= <- <-]. do 3 (split; [done|]).
    by left.
Qed.

Lemma getCleanUpPeriod_Done (p p' : Startup.Process) (v : Z) :
  Startup.getCleanUpPeriod p = Startup.Done v p' →
  Startup.CleanUpPeriod p' = v ∧
  Startup.TTL p' = Startup.TTL p ∧
  Startup.dotenv p' = Startup.dotenv p ∧
  (p' = p ∨
   ∃ f, Startup.dotenv p = Some f ∧
        Startup.environ p' = Startup.environ p ∪ f).
Proof.
  destruct (decide (Startup.CleanUpPeriod p = 0)) as [Hp|Hp].
  - rewrite getCleanUpPeriod_read by done.
    destruct (Startup.dotenv p) as [f|] eqn:Hf; [|done].
    destruct (strconv.Atoi _) as [h|] eqn:Hh; [|done].
    intros [= <- <-]. simpl. do 3 (split; [done|]). right. by exists f.
  - rewrite getCleanUpPeriod_memo by done. intros [= <- <-].
    do 3 (split; [done|]). by left.
Qed.

Lemma union_union (e f : gmap string string) : (e ∪ f) ∪ f = e ∪ f.
Proof. by rewrite <- (assoc_L (∪)), (idemp_L (∪)). Qed.

(** X13: once [getTTL] has returned a value other than zero it is
    remembered: every later call returns the same value and touches
    nothing, whatever has become of the environment and of the [.env]
    file, even when the file can no longer be loaded. *)
Theorem getTTL_is_remembered (p p' : Startup.Process) (v : Z)
    (env : gmap string string) (file : option (gmap string string)) :
  Startup.getTTL p = Startup.Done v p' →
  v ≠ 0 →
  Startup.getTTL (Startup.moved env file p') =
    Startup.Done v (Startup.moved env file p').
Proof.
  intros Hg Hv. apply getTTL_Done in Hg as (Ht & _).
  rewrite getTTL_memo; simpl; by rewrite Ht.
Qed.

Lemma getTTL_is_remembered_witness :
  let p := Startup.unconfigured ∅ (Some sampleDotenv) in
  let p' := {| Startup.TTL := 3 * Startup.Hour; Startup.CleanUpPeriod := 0;
               Startup.environ := sampleDotenv;
               Startup.dotenv := Some sampleDotenv |} in
  Startup.getTTL p = Startup.Done (3 * Startup.Hour) p' ∧
  3 * Startup.Hour ≠ 0 ∧
  Startup.getTTL (Startup.moved ∅ None p') =
    Startup.Done (3 * Startup.Hour) (Startup.moved ∅ None p').
Proof.
  intros p p'.
  assert (Startup.getTTL p = Startup.Done (3 * Startup.Hour) p') as Hg by reflexivity.
  assert (3 * Startup.Hour ≠ 0) as Hv by (by vm_compute).
  split; [exact Hg|]. split; [exact Hv|].
  exact (getTTL_is_remembered p p' _ ∅ None Hg Hv).
Defined.

(** X14: a TTL of zero hours is never remembered: after [getTTL] has
    returned zero, the next call loads the [.env] file again, and ends the
    process in [log.Fatalf] when the file can no longer be loaded. *)
Theorem zero_TTL_is_read_again (p p' : Startup.Process)
    (env : gmap string string) :
  Startup.getTTL p = Startup.Done 0 p' →
  Startup.TTL p' = 0 ∧
  Startup.getTTL (Startup.moved env None p') =
    Startup.Fatal "error loading .env file %s".
Proof.
  intros Hg. apply getTTL_Done in Hg as (Ht & _). split; [done|].
  by rewrite getTTL_read.
Qed.

Lemma zero_TTL_is_read_again_witness :
  let file : gmap string string := {["TTL" := "0"]} in
  let p := Startup.unconfigured ∅ (Some file) in
  let p' := {| Startup.TTL := 0; Startup.CleanUpPeriod := 0;
               Startup.environ := file; Startup.dotenv := Some file |} in
  Startup.getTTL p = Startup.Done 0 p' ∧
  Startup.getTTL (Startup.moved file None p') =
    Startup.Fatal "error loading .env file %s".
Proof.
  intros file p p'.
  assert (Startup.getTTL p = Startup.Done 0 p') as Hg by reflexivity.
  split; [exact Hg|].
  apply (zero_TTL_is_read_again p p' file Hg).
Defined.

Lemma Atoi_fits (s : string) (h : Z) :
  strconv.Atoi s = Some h → - 2 ^ 63 <= h <= 2 ^ 63 - 1.
Proof.
  unfold strconv.Atoi.
  destruct (match s with
            | String "-" s' => (true, s')
            | String "+" s' => (false, s')
            | _ => (false, s)
            end) as [neg ds].
  destruct ds as [|ch ds]; [done|].
  destruct (strconv.digits 0 (String ch ds)) as [n|]; [|done].
  destruct (Z.leb strconv.minInt _ && Z.leb _ strconv.maxInt) eqn:E; [|done].
  intros [= <-]. apply andb_true_iff in E as [E1 E2].
  apply Z.leb_le in E1, E2. unfold strconv.minInt, strconv.maxInt in *. lia.
Qed.

Lemma wrap64_exact (z : Z) :
  Startup.wrap64 z = z ↔ - 2 ^ 63 <= z < 2 ^ 63.
Proof.
  unfold Startup.wrap64. split.
  - intros Hz. pose proof (Z.mod_pos_bound (z + 2 ^ 63) (2 ^ 64)). lia.
  - intros Hz. rewrite Z.mod_small; lia.
Qed.

(** X15: the TTL [getTTL] reads from the configuration is the configured
    number of hours, in nanoseconds, exactly when that number lies between
    -2562047 and 2562047; beyond these bounds the multiplication by
    [time.Hour] overflows and the TTL is some other duration. *)
Theorem configured_hours_are_exact (env : gmap string string)
    (file : option (gmap string string)) (v : Z) (p' : Startup.Process) :
  Startup.getTTL (Startup.unconfigured env file) = Startup.Done v p' →
  ∃ f h, file = Some f ∧
         strconv.Atoi (default "" ((env ∪ f) !! "TTL")) = Some h ∧
         v = Startup.hoursToDuration h ∧
         (v = h * Startup.Hour ↔ -2562047 <= h <= 2562047).
Proof.
  rewrite getTTL_read by done. simpl.
  destruct file as [f|]; [|done].
  destruct (strconv.Atoi _) as [h|] eqn:Hh; [|done].
  intros [= <- <-]. exists f, h. do 3 (split; [done|]).
  unfold Startup.hoursToDuration. rewrite wrap64_exact.
  apply Atoi_fits in Hh. unfold Startup.Hour. lia.
Qed.

Lemma configured_hours_are_exact_witness :
  let file : gmap string string := {["TTL" := "2562048"]} in
  let v := Startup.hoursToDuration 2562048 in
  let p' := {| Startup.TTL := v; Startup.CleanUpPeriod := 0;
               Startup.environ := file; Startup.dotenv := Some file |} in
  Startup.getTTL (Startup.unconfigured ∅ (Some file)) = Startup.Done v p' ∧
  v < 0 ∧
  ∃ f h, Some file = Some f ∧
         strconv.Atoi (default "" ((∅ ∪ f) !! "TTL")) = Some h ∧
         v = Startup.hoursToDuration h ∧
         (v = h * Startup.Hour ↔ -2562047 <= h <= 2562047).
Proof.
  intros file v p'.
  assert (Startup.getTTL (Startup.unconfigured ∅ (Some file)) = Startup.Done v p')
    as Hg by reflexivity.
  split; [exact Hg|]. split; [by vm_compute|].
  exact (configured_hours_are_exact ∅ (Some file) v p' Hg).
Defined.

(** X16: what the start of [run] comes to, for a process that has not
    read its configuration: [log.Fatalf] when the [.env] file cannot be
    loaded, or when [TTL] or [CLEAN_UP_PERIOD] (looked up in the
    environment first, in the file second) is not an integer, with one and
    the same message for both variables; and otherwise, whatever the
    cleanup period, [run] goes on to listen with the empty cache with the
    configured [ttl], the proxy without a hook, and the goroutine of the
    cleanup worker started. That goroutine, for its part, panics in its
    ticker when the cleanup period is not positive, and otherwise becomes a
    worker that cleans up with the [ttl] of the cache. *)
Theorem beforeListen_outcome (env : gmap string string)
    (file : option (gmap string string)) :
  let p := Startup.unconfigured env file in
  match file with
  | None => Startup.beforeListen p = Startup.Fatal "error loading .env file %s"
  | Some f =>
      match strconv.Atoi (default "" ((env ∪ f) !! "TTL")) with
      | None => Startup.beforeListen p = Startup.Fatal "cannot convert ttl to int %s"
      | Some h =>
          match strconv.Atoi (default "" ((env ∪ f) !! "CLEAN_UP_PERIOD")) with
          | None =>
              Startup.beforeListen p = Startup.Fatal "cannot convert ttl to int %s"
          | Some cp =>
              let p1 := {| Startup.TTL := Startup.hoursToDuration h;
                           Startup.CleanUpPeriod := Startup.hoursToDuration cp;
                           Startup.environ := env ∪ f;
                           Startup.dotenv := Some f |} in
              Startup.beforeListen p =
                Startup.Done
                  (initial (Startup.hoursToDuration h),
                   Startup.cleanupWorker (Startup.hoursToDuration cp)) p1 ∧
              Startup.cleanupWorker (Startup.hoursToDuration cp) p1 =
                if Z.leb (Startup.hoursToDuration cp) 0
                then Startup.Panic "non-positive interval for NewTicker"
                else Startup.Done
                       {| Startup.interval := Startup.hoursToDuration cp;
                          Startup.workerTTL := Startup.hoursToDuration h |} p1
          end
      end
  end.
Proof.
  cbv zeta.
  assert (∀ file', Startup.beforeListen (Startup.unconfigured env file') =
            match Startup.getTTL (Startup.unconfigured env file') with
            | Startup.Done v p0 =>
                match Startup.getCleanUpPeriod p0 with
                | Startup.Done cup p1 =>
                    Startup.Done (initial v, Startup.cleanupWorker cup) p1
                | Startup.Fatal m => Startup.Fatal m
                | Startup.Panic m => Startup.Panic m
                end
            | Startup.Fatal m => Startup.Fatal m
            | Startup.Panic m => Startup.Panic m
            end) as Hb.
  { intros file'. unfold Startup.beforeListen.
    unfold mbind at 1, Startup.Boot_bind at 1.
    destruct (Startup.getTTL _) as [v p0|m|m]; [|done..].
    unfold mbind at 1, Startup.Boot_bind at 1.
    by destruct (Startup.getCleanUpPeriod p0) as [cup p1|m|m]. }
  rewrite Hb, getTTL_read by done. simpl.
  destruct file as [f|]; [|done].
  destruct (strconv.Atoi (default "" ((env ∪ f) !! "TTL"))) as [h|] eqn:Hh; [|done].
  rewrite getCleanUpPeriod_read by done. simpl. rewrite union_union.
  destruct (strconv.Atoi (default "" ((env ∪ f) !! "CLEAN_UP_PERIOD")))
    as [cp|] eqn:Hcp; [|done].
  split; [done|]. unfold Startup.cleanupWorker.
  destruct (Z.leb (Startup.hoursToDuration cp) 0); [done|].
  unfold mbind at 1, Startup.Boot_bind at 1.
  destruct (decide (Startup.hoursToDuration h = 0)) as [Hz|Hz].
  - rewrite getTTL_read by done. simpl. by rewrite union_union, Hh, Hz.
  - by rewrite getTTL_memo.
Qed.

Lemma getTTL_no_panic (p : Startup.Process) (msg : string) :
  Startup.getTTL p ≠ Startup.Panic msg.
Proof.
  destruct (decide (Startup.TTL p = 0)) as [Hp|Hp].
  - rewrite getTTL_read by done. destruct (Startup.dotenv p); [|done].
    by destruct (strconv.Atoi _).
  - by rewrite getTTL_memo.
Qed.

Lemma getCleanUpPeriod_no_panic (p : Startup.Process) (msg : string) :
  Startup.getCleanUpPeriod p ≠ Startup.Panic msg.
Proof.
  destruct (decide (Startup.CleanUpPeriod p = 0)) as [Hp|Hp].
  - rewrite getCleanUpPeriod_read by done. destruct (Startup.dotenv p); [|done].
    by destruct (strconv.Atoi _).
  - by rewrite getCleanUpPeriod_memo.
Qed.

(** X17: [main] never reaches its [log.Panic]: [run] returns no error
    but nil. Whatever the configuration, [main] ends in [log.Fatalf] of
    the configuration, in [log.Fatal] with the error of [ListenAndServe],
    or in [log.Fatal] because the server cannot be closed, and it returns
    only where [ListenAndServe] and [Close] both return nil. A panic of
    the ticker is the worker goroutine's own and not one [main] raises. *)
Theorem main_never_panics (listen close : option error) (p : Startup.Process) :
  match Startup.run listen close p with
  | Startup.Done err _ => err = None
  | _ => True
  end ∧
  match Startup.main listen close p with
  | Startup.Done _ _ => listen = None ∧ close = None
  | Startup.Fatal msg =>
      match Startup.beforeListen p with
      | Startup.Done _ _ =>
          match listen with
          | Some err => msg = Error err
          | None => is_Some close ∧ msg = "Cannot close server"
          end
      | Startup.Fatal msg' => msg = msg'
      | Startup.Panic _ => False
      end
  | Startup.Panic _ => False
  end.
Proof.
  unfold Startup.main, Startup.run.
  unfold mbind at 1 2 3, Startup.Boot_bind at 1 2 3.
  destruct (Startup.beforeListen p) as [[w g] p'|msg|msg] eqn:Hs.
  - destruct listen as [err|]; [done|]. by destruct close.
  - done.
  - exfalso. unfold Startup.beforeListen in Hs. revert Hs.
    unfold mbind at 1, Startup.Boot_bind at 1.
    destruct (Startup.getTTL p) as [v p1|m|m] eqn:H1;
      [|done|by destruct (getTTL_no_panic p m)].
    unfold mbind at 1, Startup.Boot_bind at 1.
    by destruct (Startup.getCleanUpPeriod p1) as [cup p2|m|m] eqn:H2;
      [|done|destruct (getCleanUpPeriod_no_panic p1 m)].
Qed.

(** X18: the cleanup worker always cleans up with the [ttl] of the cache:
    whatever the process has configured already, when the start of [run]
    succeeds and the goroutine it has started gets as far as its loop, the
    worker's [ttl] is the cache's, so that each tick of the worker is a
    cleanup pass with the [ttl] the handler uses for its lookups, in every
    state the server reaches. *)
Theorem worker_uses_cache_ttl (p p1 p' : Startup.Process) (w0 : World)
    (g : Startup.Boot Startup.Worker) (wk : Startup.Worker) (ops : list op)
    (nowAt : string → Z) :
  Startup.beforeListen p = Startup.Done (w0, g) p1 →
  g p1 = Startup.Done wk p' →
  Startup.workerTTL wk = ttl (c w0) ∧
  0 < Startup.interval wk ∧
  Startup.workerTick wk nowAt (run ops w0) = tick nowAt (run ops w0).
Proof.
  unfold Startup.beforeListen.
  unfold mbind at 1, Startup.Boot_bind at 1.
  destruct (Startup.getTTL p) as [v p0|m|m] eqn:H1; [|done..].
  unfold mbind at 1, Startup.Boot_bind at 1.
  destruct (Startup.getCleanUpPeriod p0) as [cup p2|m|m] eqn:H2; [|done..].
  intros [= <- <- <-]. unfold Startup.cleanupWorker.
  destruct (Z.leb_spec cup 0) as [Hc|Hc]; [done|].
  unfold mbind at 1, Startup.Boot_bind at 1.
  destruct (Startup.getTTL p2) as [v' p3|m|m] eqn:H3; [|done..].
  intros [= <- <-]. simpl.
  assert (v' = v) as ->.
  { apply getTTL_Done in H1 as (Ht1 & _ & Hd1 & Hcase1).
    apply getCleanUpPeriod_Done in H2 as (_ & Ht2 & Hd2 & Hcase2).
    destruct (decide (v = 0)) as [Hz|Hz].
    - destruct Hcase1 as [[Hne ->]|(Hp0 & f & h & Hf & He & Hh & Hv)]; [congruence|].
      rewrite getTTL_read in H3 by congruence.
      rewrite Hd2, Hd1, Hf in H3.
      assert (Startup.environ p2 ∪ f = Startup.environ p0) as Hu.
      { destruct Hcase2 as [->|(f' & Hf' & ->)].
        - by rewrite He, union_union.
        - assert (f' = f) as -> by congruence. by rewrite He, !union_union. }
      rewrite Hu, Hh in H3. by injection H3 as <-.
    - rewrite getTTL_memo in H3 by congruence. injection H3 as <-. congruence. }
  split; [done|]. split; [done|].
  unfold Startup.workerTick, tick. run_M. by rewrite run_ttl.
Qed.

Lemma worker_uses_cache_ttl_witness :
  let p := Startup.unconfigured ∅ (Some sampleDotenv) in
  let w0 := initial (3 * Startup.Hour) in
  let g := Startup.cleanupWorker Startup.Hour in
  let wk := {| Startup.interval := Startup.Hour;
               Startup.workerTTL := 3 * Startup.Hour |} in
  let p' := {| Startup.TTL := 3 * Startup.Hour;
               Startup.CleanUpPeriod := Startup.Hour;
               Startup.environ := sampleDotenv;
               Startup.dotenv := Some sampleDotenv |} in
  Startup.beforeListen p = Startup.Done (w0, g) p' ∧
  g p' = Startup.Done wk p' ∧
  Startup.workerTTL wk = ttl (c w0).
Proof.
  intros p w0 g wk p'.
  assert (Startup.beforeListen p = Startup.Done (w0, g) p') as Hs by reflexivity.
  assert (g p' = Startup.Done wk p') as Hg by reflexivity.
  split; [exact Hs|]. split; [exact Hg|].
  apply (worker_uses_cache_ttl p p' p' w0 g wk [] (λ _, 0) Hs Hg).
Defined.

(** ** Cleanup and lookup *)


